(** * FlappyPlace server: a shallow embedding of [server.js]

    The server keeps one 2000x2000 canvas of palette indices in a
    [Uint8Array], a [Map] of per-user cooldown timestamps, and an array of
    pending pixel updates.  This file embeds the pure core of [server.js]:

    - JavaScript numbers are modelled by [Z]: the embedding covers
      integer-valued numbers, which is what coordinates, colour indices,
      timestamps and byte data are meant to be.  The source checks no
      types: with a string, a fraction or a missing field in a message,
      [setPixel] and [getRegion] may accept the request and act on another
      cell or on none; such values are outside this embedding, and every
      statement below is a statement about integer arguments.  The 32-bit
      shift [<<] keeps its wrap-around.  [undefined] (a read outside a
      typed array, a missing [Map] key) is [None], and arithmetic on it
      yields [NaN] ([None] again).
    - A [Uint8Array] is its length together with a finite map from index to
      byte; a cell absent from the map holds the 0 it was allocated with.
      Writes outside the array are ignored and reads there give
      [undefined], as in JavaScript.  The canvas and the export buffer are
      taken to be allocated; the buffer of [getRegion], whose length a
      client chooses, is allocated only up to the capacity of the engine,
      a parameter of [getRegionOn].
    - [Date.now()] is an input: every call site receives the reading the
      clock returned there.
    - The PNG container (pngjs [pack] / parse and the file system) is
      taken to carry width, height and the RGBA buffer unchanged. *)

From Stdlib Require Import ZArith Lia Strings.Byte Strings.Ascii Strings.String.
From stdpp Require Import gmap strings list fin_maps.

Local Open Scope Z_scope.

(** ** JavaScript primitives *)

(** The numeric value of a byte. *)
Definition byte_val (b : byte) : Z := Z.of_N (Byte.to_N b).

(** [ToUint8]: the conversion applied by a store into a [Uint8Array]. *)
Definition to_uint8 (v : Z) : byte :=
  default "000"%byte (Byte.of_N (Z.to_N (v mod 256))).

(** A store of a possibly undefined value: [undefined] converts to [NaN],
    and [NaN] to 0. *)
Definition to_uint8_opt (v : option Z) : byte :=
  match v with
  | Some z => to_uint8 z
  | None => "000"%byte
  end.

(** [ToInt32]. *)
Definition to_int32 (v : Z) : Z := (v + 2 ^ 31) mod 2 ^ 32 - 2 ^ 31.

(** [a << n] on 32-bit integers. *)
Definition shl32 (a n : Z) : Z :=
  to_int32 (Z.shiftl (to_int32 a) (Z.land n 31)).

(** [for (let i = start; i < start + n; i++) body], the state threaded
    through the iterations. *)
Fixpoint for_loop {S : Type} (n : nat) (i : Z) (body : Z → S → S) (s : S) : S :=
  match n with
  | O => s
  | Datatypes.S n' => for_loop n' (i + 1) body (body i s)
  end.

(** [for (let i = 0; i < hi; i++) body]. *)
Definition for_upto {S : Type} (hi : Z) (body : Z → S → S) (s : S) : S :=
  for_loop (Z.to_nat hi) 0 body s.

(** ** Typed arrays *)

Record Uint8Array := mkU8 {
  u8_length : Z;
  u8_cells : gmap Z byte
}.

(** [new Uint8Array(n)]: [n] zero bytes. *)
Definition u8_new (n : Z) : Uint8Array := mkU8 n ∅.

(** [a[i]]. *)
Definition u8_get (a : Uint8Array) (i : Z) : option Z :=
  if decide (0 <= i < u8_length a)
  then Some (byte_val (default "000"%byte (u8_cells a !! i)))
  else None.

(** [a[i] = v]. *)
Definition u8_set (a : Uint8Array) (i : Z) (v : option Z) : Uint8Array :=
  if decide (0 <= i < u8_length a)
  then mkU8 (u8_length a) (<[i := to_uint8_opt v]> (u8_cells a))
  else a.

(** ** Configuration *)

Definition CANVAS_SIZE : Z := 2000.
Definition COOLDOWN_MS : Z := 5000.
Definition UPDATE_BATCH_INTERVAL : Z := 100.

Definition COLORS : list string :=
  [ "#FFFFFF"; "#E4E4E4"; "#888888"; "#222222";
    "#FFA7D1"; "#E50000"; "#E59500"; "#A06A42";
    "#E5D900"; "#94E044"; "#02BE01"; "#00D3DD";
    "#0083C7"; "#0000EA"; "#CF6EE4"; "#820080" ]%string.

(** [COLORS.length]. *)
Definition COLORS_length : Z := Z.of_nat (length COLORS).

(** ** Canvas *)

(** The global [canvas] is a [Uint8Array] whose length never changes; the
    state keeps its cells. *)
Abbreviation Canvas := (gmap Z byte).

Definition canvas_length : Z := CANVAS_SIZE * CANVAS_SIZE.

Definition canvas_array (c : Canvas) : Uint8Array := mkU8 canvas_length c.

Definition canvas0 : Canvas := ∅.

Definition getPixelIndex (x y : Z) : Z := y * CANVAS_SIZE + x.

(** [setPixel] on integer arguments; the updated canvas is returned next
    to the result. *)
Definition setPixel (c : Canvas) (x y colorIndex : Z) : bool * Canvas :=
  if (x <? 0) || (x >=? CANVAS_SIZE) || (y <? 0) || (y >=? CANVAS_SIZE)
  then (false, c)
  else if (colorIndex <? 0) || (colorIndex >=? COLORS_length)
  then (false, c)
  else (true, u8_cells (u8_set (canvas_array c) (getPixelIndex x y) (Some colorIndex))).

Definition getPixel (c : Canvas) (x y : Z) : option Z :=
  u8_get (canvas_array c) (getPixelIndex x y).

(** The largest integer up to which the counters of a loop advance, and
    the largest length [new Uint8Array] accepts on any engine. *)
Definition MAX_SAFE_INTEGER : Z := 2 ^ 53 - 1.

(** How a call of [getRegion] ends. *)
Inductive Ending := Returns | RaisesRangeError | NeverReturns.

(** [maxLength] is the greatest length for which [new Uint8Array]
    succeeds on the engine at the time of the call.  The allocation
    raises [RangeError] on a negative length and on a length above
    [maxLength] or above 2^53 - 1.  The row counter [dy] stops advancing
    at 2^53, so the outer loop never ends when [height] is larger. *)
Definition getRegionEnding (maxLength width height : Z) : Ending :=
  if (width * height <? 0) || (Z.min maxLength MAX_SAFE_INTEGER <? width * height)
  then RaisesRangeError
  else if MAX_SAFE_INTEGER + 1 <? height then NeverReturns
  else Returns.

(** [getRegion] on an engine of capacity [maxLength]; [None] when no
    region is returned. *)
Definition getRegionOn (maxLength : Z) (c : Canvas) (x y width height : Z)
  : option Uint8Array :=
  match getRegionEnding maxLength width height with
  | Returns =>
      Some (
        for_upto height (λ dy region,
          for_upto width (λ dx region,
            let worldX := x + dx in
            let worldY := y + dy in
            if (worldX >=? 0) && (worldX <? CANVAS_SIZE) &&
               (worldY >=? 0) && (worldY <? CANVAS_SIZE)
            then u8_set region (dy * width + dx)
                        (u8_get (canvas_array c) (getPixelIndex worldX worldY))
            else region) region)
          (u8_new (width * height)))
  | RaisesRangeError | NeverReturns => None
  end.

(** [getRegion] on an engine that allocates every length the language
    allows. *)
Definition getRegion : Canvas → Z → Z → Z → Z → option Uint8Array :=
  getRegionOn MAX_SAFE_INTEGER.

(** ** Cooldown *)

(** [!v] for a value that is a number or [undefined]. *)
Definition falsy (v : option Z) : bool :=
  match v with
  | None => true
  | Some z => z =? 0
  end.

Definition canUserDraw (cooldowns : gmap string Z) (userId : string) (now : Z) : bool :=
  let lastDraw := cooldowns !! userId in
  if falsy lastDraw then true
  else match lastDraw with
       | Some t => now - t >=? COOLDOWN_MS
       | None => false
       end.

Definition updateUserCooldown (cooldowns : gmap string Z) (userId : string) (now : Z)
  : gmap string Z :=
  <[userId := now]> cooldowns.

(** The periodic sweep: every entry with [now - timestamp > COOLDOWN_MS * 10]
    is deleted. *)
Definition sweepCooldowns (cooldowns : gmap string Z) (now : Z) : gmap string Z :=
  filter (λ kv : string * Z, ¬ (now - kv.2 > COOLDOWN_MS * 10)) cooldowns.

(** ** Palette arithmetic *)

(** Numbers that may be [NaN]. *)
Definition num_op (f : Z → Z → Z) (a b : option Z) : option Z :=
  match a, b with
  | Some x, Some y => Some (f x y)
  | _, _ => None
  end.

Definition hex_digit (a : ascii) : option Z :=
  let n := Z.of_N (N_of_ascii a) in
  if (48 <=? n) && (n <=? 57) then Some (n - 48)
  else if (65 <=? n) && (n <=? 70) then Some (n - 55)
  else if (97 <=? n) && (n <=? 102) then Some (n - 87)
  else None.

(** [parseInt(s, 16)] on a slice of a colour string: the longest prefix of
    hexadecimal digits, [NaN] when there is none. *)
Fixpoint parse_hex (s : string) (acc : option Z) : option Z :=
  match s with
  | EmptyString => acc
  | String a s' =>
      match hex_digit a with
      | Some d => parse_hex s' (Some (default 0 acc * 16 + d))
      | None => acc
      end
  end.

Definition parseInt16 (s : string) : option Z := parse_hex s None.

Definition rgb : Type := option Z * option Z * option Z.

(** [[parseInt(col.slice(1,3),16), parseInt(col.slice(3,5),16),
      parseInt(col.slice(5,7),16)]]. *)
Definition hexRGB (col : string) : rgb :=
  (parseInt16 (substring 1 2 col),
   parseInt16 (substring 3 2 col),
   parseInt16 (substring 5 2 col)).

Definition paletteRGB : list rgb := map hexRGB COLORS.

(** [(r-pr)*(r-pr) + (g-pg)*(g-pg) + (b-pb)*(b-pb)]. *)
Definition sqDist (r g b : option Z) (p : rgb) : option Z :=
  let '(pr, pg, pb) := p in
  let dr := num_op Z.sub r pr in
  let dg := num_op Z.sub g pg in
  let db := num_op Z.sub b pb in
  num_op Z.add (num_op Z.add (num_op Z.mul dr dr) (num_op Z.mul dg dg))
               (num_op Z.mul db db).

(** [bestDist] starts at [Infinity]. *)
Inductive Bound := Infinity | Finite (d : Z).

(** [dist < bestDist]; false whenever [dist] is [NaN]. *)
Definition lt_bound (dist : option Z) (bestDist : Bound) : bool :=
  match dist, bestDist with
  | None, _ => false
  | Some _, Infinity => true
  | Some d, Finite e => d <? e
  end.

(** The palette scan, from index [i] on, for the pixel [(r, g, b)]. *)
Fixpoint scanPalette (pal : list rgb) (i : Z) (r g b : option Z)
                     (bestIndex : Z) (bestDist : Bound) : Z :=
  match pal with
  | [] => bestIndex
  | p :: rest =>
      let dist := sqDist r g b p in
      if lt_bound dist bestDist
      then scanPalette rest (i + 1) r g b i
                       (match dist with Some d => Finite d | None => bestDist end)
      else scanPalette rest (i + 1) r g b bestIndex bestDist
  end.

Definition nearestColor (r g b : option Z) : Z :=
  scanPalette paletteRGB 0 r g b 0 Infinity.

(** ** Snapshots *)

(** A decoded PNG: [this.width], [this.height], [this.data] (RGBA). *)
Record PNG := mkPNG {
  png_width : Z;
  png_height : Z;
  png_data : Uint8Array
}.

(** What start-up writes to the console: no snapshot found; the size
    warning; the load message; the decoder's error; the line of the
    [uncaughtException] handler, after which the process saves the canvas
    and exits. *)
Inductive LogEntry :=
| LogNoSnapshot
| WarnSizeDiffers (width height : Z)
| LogLoaded
| ErrLoad
| ErrUncaught.

(** The ['parsed'] handler of [loadCanvasFromPNG]. *)
Definition onParsed (this : PNG) (c : Canvas) : Canvas * list LogEntry :=
  let warning :=
    if negb (png_width this =? CANVAS_SIZE) || negb (png_height this =? CANVAS_SIZE)
    then [WarnSizeDiffers (png_width this) (png_height this)] else [] in
  let w := Z.min (png_width this) CANVAS_SIZE in
  let h := Z.min (png_height this) CANVAS_SIZE in
  let c' :=
    for_upto h (λ y c,
      for_upto w (λ x c,
        let idx := shl32 (y * png_width this + x) 2 in
        let r := u8_get (png_data this) idx in
        let g := u8_get (png_data this) (idx + 1) in
        let b := u8_get (png_data this) (idx + 2) in
        let bestIndex := nearestColor r g b in
        snd (setPixel c x y bestIndex)) c) c in
  (c', warning ++ [LogLoaded]).

(** What [canvas-snapshot.png] is at start-up: absent; present but not
    readable (the read stream fails); readable but no PNG (the decoder
    fails); or a PNG. *)
Inductive SnapshotFile :=
| Missing
| Unreadable
| Undecodable
| Image (png : PNG).

(** [loadCanvasFromPNG].  Only the decoder has an ['error'] listener: its
    failure is logged and the server carries on with the canvas as it is.
    A failure of the read stream itself is listened to by nobody; it
    reaches the [uncaughtException] handler, which logs it and goes
    through [saveAndExit]. *)
Definition loadCanvasFromPNG (file : SnapshotFile) (c : Canvas) : Canvas * list LogEntry :=
  match file with
  | Missing => (c, [LogNoSnapshot])
  | Unreadable => (c, [ErrUncaught])
  | Undecodable => (c, [ErrLoad])
  | Image png => onParsed png c
  end.

(** The image [exportCanvasToPNG] renders and hands to [png.pack()]. *)
Definition exportCanvasToPNG (c : Canvas) : PNG :=
  let data :=
    for_upto (u8_length (canvas_array c)) (λ i data,
      let colorIndex := u8_get (canvas_array c) i in
      let color :=
        default "#000000"%string
                (colorIndex ≫= λ k, COLORS !! Z.to_nat k) in
      let '(r, g, b) := hexRGB color in
      let idx := shl32 i 2 in
      u8_set (u8_set (u8_set (u8_set data idx r) (idx + 1) g) (idx + 2) b)
             (idx + 3) (Some 255))
      (u8_new (4 * CANVAS_SIZE * CANVAS_SIZE)) in
  mkPNG CANVAS_SIZE CANVAS_SIZE data.

(** ** Connection protocol *)

Record Update := mkUpdate { upd_x : Z; upd_y : Z; upd_color : Z }.

Record Server := mkServer {
  canvas : Canvas;
  userCooldowns : gmap string Z;
  pendingUpdates : list Update
}.

Inductive Reply :=
| CooldownReply (remaining : option Z)
| DrawSuccess (cooldownUntil : Z).

(** The [drawPixel] branch of the message handler, for a message whose
    [x], [y] and [color] fields are integers.  [now1], [now2] and
    [now3] are what [Date.now()] returns at the call sites the handler
    reaches: [now1] inside [canUserDraw]; [now2] in the cooldown reply or
    inside [updateUserCooldown]; [now3] in the [drawSuccess] reply. *)
Definition onDrawPixel (userId : string) (x y color : Z) (now1 now2 now3 : Z)
                       (s : Server) : Server * list Reply :=
  if negb (canUserDraw (userCooldowns s) userId now1)
  then (s, [CooldownReply
              (num_op Z.sub (Some COOLDOWN_MS)
                      (num_op Z.sub (Some now2) (userCooldowns s !! userId)))])
  else
    let '(ok, c') := setPixel (canvas s) x y color in
    if ok
    then (mkServer c' (updateUserCooldown (userCooldowns s) userId now2)
                   (pendingUpdates s ++ [mkUpdate x y color]),
          [DrawSuccess (now3 + COOLDOWN_MS)])
    else (s, []).

(** ** Broadcast *)

(** One tick of the broadcast timer: the message sent, if any. *)
Definition broadcastTick (s : Server) : Server * option (list Update) :=
  if (Z.of_nat (length (pendingUpdates s)) =? 0) then (s, None)
  else (mkServer (canvas s) (userCooldowns s) [], Some (pendingUpdates s)).

Inductive ReadyState := CONNECTING | OPEN | CLOSING | CLOSED.

(** The clients a message is sent to. *)
Definition recipients {A : Type} (clients : list (A * ReadyState)) : list A :=
  omap (λ cl, match cl.2 with OPEN => Some cl.1 | _ => None end) clients.

(** Draw requests (with integer fields) and timer ticks, as the event
    loop runs them. *)
Inductive Event :=
| EvDraw (userId : string) (x y color : Z) (now1 now2 now3 : Z)
| EvTick.

(** The trace of a run: the batches broadcast and the draws accepted, both
    in order of occurrence. *)
Record Trace := mkTrace {
  batches : list (list Update);
  accepted : list Update
}.

Definition step (ev : Event) (st : Server * Trace) : Server * Trace :=
  let '(s, tr) := st in
  match ev with
  | EvDraw userId x y color now1 now2 now3 =>
      let '(s', replies) := onDrawPixel userId x y color now1 now2 now3 s in
      match replies with
      | [DrawSuccess _] =>
          (s', mkTrace (batches tr) (accepted tr ++ [mkUpdate x y color]))
      | _ => (s', tr)
      end
  | EvTick =>
      match broadcastTick s with
      | (s', Some msg) => (s', mkTrace (batches tr ++ [msg]) (accepted tr))
      | (s', None) => (s', tr)
      end
  end.

Definition run (evs : list Event) (s : Server) : Server * Trace :=
  fold_left (λ st ev, step ev st) evs (s, mkTrace [] []).

(** ** Saving *)

(** Who started an export. *)
Inductive Origin := Manual | Shutdown.

Record Saver := mkSaver {
  _isSaving : bool;
  manualPending : nat;       (* exports started by POST /save-snapshot *)
  shutdownPending : nat;     (* exports started by saveAndExit *)
  exited : bool;
  responses : list Z         (* HTTP status codes written *)
}.

Definition saver0 : Saver := mkSaver false 0 0 false [].

Inductive SaveEvent :=
| PostSaveSnapshot
| Signal
| Settled (o : Origin) (ok : bool).

(** The [/save-snapshot] request handler. *)
Definition onSaveSnapshot (s : Saver) : Saver :=
  if _isSaving s
  then mkSaver (_isSaving s) (manualPending s) (shutdownPending s) (exited s)
               (responses s ++ [409])
  else mkSaver true (Datatypes.S (manualPending s)) (shutdownPending s) (exited s)
               (responses s).

(** [saveAndExit] up to its [await]. *)
Definition saveAndExit (s : Saver) : Saver :=
  if _isSaving s then s
  else mkSaver true (manualPending s) (Datatypes.S (shutdownPending s)) (exited s)
               (responses s).

(** The export promise of [o] settles. *)
Definition onSettled (o : Origin) (ok : bool) (s : Saver) : Saver :=
  match o with
  | Manual =>
      match manualPending s with
      | O => s
      | Datatypes.S n =>
          mkSaver false n (shutdownPending s) (exited s)
                  (responses s ++ [if ok then 200 else 500])
      end
  | Shutdown =>
      match shutdownPending s with
      | O => s
      | Datatypes.S n =>
          mkSaver (_isSaving s) (manualPending s) n true (responses s)
      end
  end.

Definition saveStep (ev : SaveEvent) (s : Saver) : Saver :=
  if exited s then s
  else match ev with
       | PostSaveSnapshot => onSaveSnapshot s
       | Signal => saveAndExit s
       | Settled o ok => onSettled o ok s
       end.

Definition saveRun (evs : list SaveEvent) (s : Saver) : Saver :=
  fold_left (λ s ev, saveStep ev s) evs s.

(** ** Broadcast delivery *)

(** One tick of the broadcast timer with the connected clients: the
    message each [OPEN] client is sent. *)
Definition broadcast {A : Type} (clients : list (A * ReadyState)) (s : Server)
  : Server * list (A * list Update) :=
  match broadcastTick s with
  | (s', Some message) => (s', (λ a, (a, message)) <$> recipients clients)
  | (s', None) => (s', [])
  end.

(** ** Messages *)

(** [Array.from(region)]. *)
Definition arrayFrom (a : Uint8Array) : list Z :=
  (λ i : nat, default 0 (u8_get a (Z.of_nat i))) <$> seq 0 (Z.to_nat (u8_length a)).

(** An inbound WebSocket payload, as [JSON.parse] and the [type] field
    classify it; the fields of a request are integers. *)
Inductive Message :=
| MsgGetRegion (x y width height : Z)
| MsgDrawPixel (x y color : Z)
| MsgOther
| MsgUnparseable.

Inductive Sent :=
| SentRegion (x y width height : Z) (data : list Z)
| SentReply (r : Reply).

(** The ['message'] handler of a connection: the new state, what is
    sent on the socket, and whether the [catch] block logged an error.
    [maxLength] is the largest region the engine can allocate, copy into
    an array and serialise; a larger one raises inside the [try] block.
    When [getRegion] never returns, neither does the handler: nothing is
    sent and nothing is logged. *)
Definition onMessageOn (maxLength : Z) (userId : string) (msg : Message)
                       (now1 now2 now3 : Z) (s : Server) : Server * list Sent * bool :=
  match msg with
  | MsgUnparseable => (s, [], true)
  | MsgGetRegion x y width height =>
      match getRegionOn maxLength (canvas s) x y width height with
      | Some region => (s, [SentRegion x y width height (arrayFrom region)], false)
      | None =>
          match getRegionEnding maxLength width height with
          | NeverReturns => (s, [], false)
          | _ => (s, [], true)
          end
      end
  | MsgDrawPixel x y color =>
      let '(s', replies) := onDrawPixel userId x y color now1 now2 now3 s in
      (s', SentReply <$> replies, false)
  | MsgOther => (s, [], false)
  end.

(** The handler on an engine that allocates every length the language
    allows. *)
Definition onMessage : string → Message → Z → Z → Z → Server → Server * list Sent * bool :=
  onMessageOn MAX_SAFE_INTEGER.

(** ** HTTP requests *)

Record Request := mkRequest { req_method : string; req_url : string }.

Inductive Body :=
| FileData (data : string)
| Text (text : string)
| HealthJson (connections : Z).

Record Response := mkResponse {
  res_status : Z;
  res_contentType : option string;
  res_body : Body
}.

(** The request handler.  [index] and [styles] are what [fs.readFile]
    yields for [index.html] and [styles.css] ([None] on error);
    [connections] is [wss.clients.size].  The responses of a save request
    are recorded in the [Saver]. *)
Definition onRequest (req : Request) (index styles : option string) (connections : Z)
                     (sv : Saver) : Saver * list Response :=
  if String.eqb (req_url req) "/" || String.eqb (req_url req) "/index.html" then
    match index with
    | None => (sv, [mkResponse 500 None (Text "Error loading index.html")])
    | Some data => (sv, [mkResponse 200 (Some "text/html"%string) (FileData data)])
    end
  else if String.eqb (req_url req) "/styles.css" then
    match styles with
    | None => (sv, [mkResponse 404 None (Text "styles.css not found")])
    | Some data => (sv, [mkResponse 200 (Some "text/css"%string) (FileData data)])
    end
  else if String.eqb (req_method req) "POST" && String.eqb (req_url req) "/save-snapshot" then
    (onSaveSnapshot sv, [])
  else if String.eqb (req_url req) "/health" then
    (sv, [mkResponse 200 (Some "application/json"%string) (HealthJson connections)])
  else
    (sv, [mkResponse 200 (Some "text/plain"%string) (Text "Flappy Place Server running")]).

(** ** Vocabulary of the statements *)

Definition server0 : Server := mkServer canvas0 ∅ [].

(** The bounds test of [getRegion]. *)
Definition inCanvas (worldX worldY : Z) : bool :=
  (worldX >=? 0) && (worldX <? CANVAS_SIZE) &&
  (worldY >=? 0) && (worldY <? CANVAS_SIZE).

(** What position [(dx, dy)] of a region anchored at [(x, y)] must hold. *)
Definition regionCell (c : Canvas) (x y dx dy : Z) : option Z :=
  if inCanvas (x + dx) (y + dy) then getPixel c (x + dx) (y + dy) else Some 0.

(** The body of the inner loop of [getRegion]. *)
Definition regionColumn (c : Canvas) (x y width : Z) (dy dx : Z)
                        (region : Uint8Array) : Uint8Array :=
  let worldX := x + dx in
  let worldY := y + dy in
  if (worldX >=? 0) && (worldX <? CANVAS_SIZE) &&
     (worldY >=? 0) && (worldY <? CANVAS_SIZE)
  then u8_set region (dy * width + dx)
              (u8_get (canvas_array c) (getPixelIndex worldX worldY))
  else region.

(** Row-major progress of [getRegion]: the cells before [(dx, dy)] are
    filled, the others still hold the initial 0. *)
Definition filledUpTo (c : Canvas) (x y width height : Z) (dx dy : Z)
                      (region : Uint8Array) : Prop :=
  u8_length region = width * height ∧
  ∀ dx' dy', 0 <= dx' < width → 0 <= dy' < height →
    u8_get region (dy' * width + dx') =
    if (dy' <? dy) || ((dy' =? dy) && (dx' <? dx))
    then regionCell c x y dx' dy' else Some 0.

(** A palette entry whose three components parsed as numbers. *)
Definition lift (p : Z * Z * Z) : rgb :=
  let '(r, g, b) := p in (Some r, Some g, Some b).

(** The palette colours as integer triples. *)
Definition paletteTriples : list (Z * Z * Z) :=
  omap (λ p : rgb,
          let '(r, g, b) := p in
          r ← r; g ← g; b ← b; Some (r, g, b)) paletteRGB.

(** Squared Euclidean distance between two RGB triples. *)
Definition dist3 (r g b : Z) (p : Z * Z * Z) : Z :=
  let '(pr, pg, pb) := p in
  (r - pr) * (r - pr) + (g - pg) * (g - pg) + (b - pb) * (b - pb).

(** Squared distance from [(r, g, b)] to palette entry [j]. *)
Definition colorDistance (r g b : Z) (j : Z) : option Z :=
  dist3 r g b <$> paletteTriples !! Z.to_nat j.

(** [k] is the first index of [pal] at minimal distance from [(r, g, b)]. *)
Definition firstNearest (pal : list (Z * Z * Z)) (r g b : Z) (k : Z) : Prop :=
  0 <= k ∧
  ∃ p, pal !! Z.to_nat k = Some p ∧
       ∀ j q, pal !! j = Some q →
              dist3 r g b p <= dist3 r g b q ∧
              (Z.of_nat j < k → dist3 r g b p < dist3 r g b q).

(** The RGB bytes of pixel [(x, y)] of a decoded image. *)
Definition pixelAt (this : PNG) (x y : Z) : rgb :=
  let idx := 4 * (y * png_width this + x) in
  (u8_get (png_data this) idx,
   u8_get (png_data this) (idx + 1),
   u8_get (png_data this) (idx + 2)).

(** The index the ['parsed'] handler computes for canvas cell [(x, y)]. *)
Definition quantized (this : PNG) (x y : Z) : Z :=
  let idx := shl32 (y * png_width this + x) 2 in
  nearestColor (u8_get (png_data this) idx)
               (u8_get (png_data this) (idx + 1))
               (u8_get (png_data this) (idx + 2)).

(** Every canvas cell holds a palette index. *)
Definition canvasValid (c : Canvas) : Prop :=
  ∀ i v, u8_get (canvas_array c) i = Some v → v < 16.

(** The colour [exportCanvasToPNG] renders for a cell value. *)
Definition exportedRGB (colorIndex : option Z) : rgb :=
  hexRGB (default "#000000"%string (colorIndex ≫= λ k, COLORS !! Z.to_nat k)).

(** The byte read back after storing [v] into a [Uint8Array]. *)
Definition stored (v : option Z) : option Z := Some (byte_val (to_uint8_opt v)).

(** A 2^29 x 2 image whose pixel (0, 1) has palette colour 3, #222222. *)
Definition wideImage : PNG :=
  mkPNG (2 ^ 29) 2
        (mkU8 (2 ^ 32)
              (<[2 ^ 31 := "034"%byte]>
                 (<[2 ^ 31 + 1 := "034"%byte]>
                    (<[2 ^ 31 + 2 := "034"%byte]> ∅)))).

(** A 300000 x 2000 image whose pixel (0, 1790) has palette colour 3,
    #222222; its buffer of 2.4 * 10^9 bytes is below 2^32. *)
Definition broadImage : PNG :=
  mkPNG 300000 2000
        (mkU8 (4 * (300000 * 2000))
              (<[4 * (1790 * 300000) := "034"%byte]>
                 (<[4 * (1790 * 300000) + 1 := "034"%byte]>
                    (<[4 * (1790 * 300000) + 2 := "034"%byte]>
                       (<[4 * (1790 * 300000) + 3 := "255"%byte]> ∅))))).

(** A 1 x 1 image holding one pixel of colour #222222. *)
Definition tinyImage : PNG :=
  mkPNG 1 1
        (mkU8 4 (<[0 := "034"%byte]>
                   (<[1 := "034"%byte]>
                      (<[2 := "034"%byte]> (<[3 := "255"%byte]> ∅))))).

(** The body of the loop of [exportCanvasToPNG]. *)
Definition exportCell (c : Canvas) (i : Z) (data : Uint8Array) : Uint8Array :=
  let color := exportedRGB (u8_get (canvas_array c) i) in
  let idx := shl32 i 2 in
  u8_set (u8_set (u8_set (u8_set data idx color.1.1) (idx + 1) color.1.2)
                 (idx + 2) color.2)
         (idx + 3) (Some 255).

(** Progress of [exportCanvasToPNG]: the pixels before [i] are rendered. *)
Definition exportedUpTo (c : Canvas) (i : Z) (data : Uint8Array) : Prop :=
  u8_length data = 4 * CANVAS_SIZE * CANVAS_SIZE ∧
  ∀ j, 0 <= j < i →
    u8_get data (4 * j) = stored (exportedRGB (u8_get (canvas_array c) j)).1.1 ∧
    u8_get data (4 * j + 1) = stored (exportedRGB (u8_get (canvas_array c) j)).1.2 ∧
    u8_get data (4 * j + 2) = stored (exportedRGB (u8_get (canvas_array c) j)).2.

(** At most one export is in flight, and [_isSaving] is set while one is. *)
Definition exclusive (s : Saver) : Prop :=
  (manualPending s + shutdownPending s <= 1)%nat ∧
  (_isSaving s = false → (manualPending s + shutdownPending s = 0)%nat).

(** The three outcomes of a draw request. *)
Inductive DrawOutcome (userId : string) (x y color now1 now2 now3 : Z) (s : Server)
  : Server * list Reply → Prop :=
| OutcomeCooldown lastDraw :
    canUserDraw (userCooldowns s) userId now1 = false →
    userCooldowns s !! userId = Some lastDraw →
    DrawOutcome userId x y color now1 now2 now3 s
      (s, [CooldownReply (Some (COOLDOWN_MS - (now2 - lastDraw)))])
| OutcomeDropped :
    canUserDraw (userCooldowns s) userId now1 = true →
    fst (setPixel (canvas s) x y color) = false →
    DrawOutcome userId x y color now1 now2 now3 s (s, [])
| OutcomeAccepted :
    canUserDraw (userCooldowns s) userId now1 = true →
    fst (setPixel (canvas s) x y color) = true →
    DrawOutcome userId x y color now1 now2 now3 s
      (mkServer (snd (setPixel (canvas s) x y color))
                (<[userId := now2]> (userCooldowns s))
                (pendingUpdates s ++ [mkUpdate x y color]),
       [DrawSuccess (now3 + COOLDOWN_MS)]).

(** What a run keeps: flushed batches followed by what is pending are the
    initial queue followed by the accepted draws; no batch is empty. *)
Definition conserved (p0 : list Update) (st : Server * Trace) : Prop :=
  concat (batches st.2) ++ pendingUpdates st.1 = p0 ++ accepted st.2 ∧
  Forall (λ b, b ≠ []) (batches st.2).

(** Progress of the ['parsed'] handler, row by row: the cells of the
    overlap before [(x, y)] hold their quantized pixel, all others what
    the canvas [c0] held. *)
Definition loadedUpTo (this : PNG) (c0 : Canvas) (x y : Z) (c : Canvas) : Prop :=
  ∀ x' y', 0 <= x' < CANVAS_SIZE → 0 <= y' < CANVAS_SIZE →
    getPixel c x' y' =
    if (x' <? Z.min (png_width this) CANVAS_SIZE) &&
       ((y' <? y) || ((y' =? y) && (x' <? x)))
    then Some (quantized this x' y') else getPixel c0 x' y'.

(** A 2 x 1 image whose buffer stops after its first pixel, #222222. *)
Definition truncatedImage : PNG :=
  mkPNG 2 1
        (mkU8 4 (<[0 := "034"%byte]>
                   (<[1 := "034"%byte]>
                      (<[2 := "034"%byte]> (<[3 := "255"%byte]> ∅))))).

(** The RGB triple [exportCanvasToPNG] renders for a cell holding [k]:
    the palette colour, or black when [k] is no palette index. *)
Definition renderedColor (k : Z) : Z * Z * Z :=
  default (0, 0, 0) (paletteTriples !! Z.to_nat k).

(** Progress of [exportCanvasToPNG] on the alpha channel. *)
Definition opaqueUpTo (i : Z) (data : Uint8Array) : Prop :=
  u8_length data = 4 * CANVAS_SIZE * CANVAS_SIZE ∧
  ∀ j, 0 <= j < i → u8_get data (4 * j + 3) = Some 255.

(** An update [setPixel] accepts. *)
Definition validUpdate (u : Update) : Prop :=
  0 <= upd_x u < CANVAS_SIZE ∧ 0 <= upd_y u < CANVAS_SIZE ∧ 0 <= upd_color u < 16.

(** What cell [(x, y)] holds once an update is applied to it. *)
Definition applyUpdate (x y : Z) (cell : option Z) (u : Update) : option Z :=
  if (upd_x u =? x) && (upd_y u =? y) then Some (upd_color u) else cell.

(** What cell [(x, y)] holds once the updates are applied in order. *)
Definition replay (x y : Z) (updates : list Update) (cell : option Z) : option Z :=
  foldl (applyUpdate x y) cell updates.

(** The event is not a draw request of [userId]. *)
Definition notBy (userId : string) (ev : Event) : Prop :=
  match ev with
  | EvDraw v _ _ _ _ _ _ => v ≠ userId
  | EvTick => True
  end.

(** A shutdown save holds [_isSaving]: no manual save is in flight, and
    the shutdown save is in flight unless the process has exited. *)
Definition shuttingDown (s : Saver) : Prop :=
  _isSaving s = true ∧ manualPending s = 0%nat ∧
  (exited s = true ∨ shutdownPending s = 1%nat).

Arguments for_loop : simpl never.
Arguments for_upto : simpl never.

(** ** Properties *)

Lemma byte_val_range b : 0 <= byte_val b < 256.
Proof.
  unfold byte_val. pose proof (Byte.to_N_bounded b). lia.
Qed.

Lemma byte_val_to_uint8 v : byte_val (to_uint8 v) = v mod 256.
Proof.
  unfold to_uint8, byte_val.
  pose proof (Z.mod_pos_bound v 256 eq_refl) as Hb.
  destruct (Byte.of_N (Z.to_N (v mod 256))) as [b|] eqn:E; simpl.
  - apply Byte.to_of_N in E. rewrite E. lia.
  - apply Byte.of_N_None_iff in E. lia.
Qed.

Lemma to_uint8_byte_val b : to_uint8 (byte_val b) = b.
Proof.
  unfold to_uint8.
  rewrite Z.mod_small by apply byte_val_range.
  unfold byte_val. rewrite N2Z.id, Byte.of_to_N. reflexivity.
Qed.

(** *** Typed arrays *)

Lemma u8_length_set a i v : u8_length (u8_set a i v) = u8_length a.
Proof. unfold u8_set. case_decide; reflexivity. Qed.

Lemma u8_get_set_eq a i v :
  0 <= i < u8_length a →
  u8_get (u8_set a i v) i = Some (byte_val (to_uint8_opt v)).
Proof.
  intros Hi. unfold u8_set. rewrite decide_True by done.
  unfold u8_get. simpl.
  rewrite decide_True by done. by rewrite lookup_insert_eq.
Qed.

Lemma u8_get_set_ne a i j v : i ≠ j → u8_get (u8_set a i v) j = u8_get a j.
Proof.
  intros Hne. unfold u8_set.
  destruct (decide (0 <= i < u8_length a)); [| done].
  unfold u8_get. simpl.
  case_decide; [| done]. by rewrite lookup_insert_ne.
Qed.

Lemma u8_get_new n i : 0 <= i < n → u8_get (u8_new n) i = Some 0.
Proof.
  intros Hi. unfold u8_get, u8_new. simpl.
  rewrite decide_True by done. by rewrite lookup_empty.
Qed.

Lemma u8_get_range a i v : u8_get a i = Some v → 0 <= v < 256.
Proof.
  unfold u8_get. case_decide; [| done].
  intros [= <-]. apply byte_val_range.
Qed.

Lemma u8_get_defined a i : 0 <= i < u8_length a → is_Some (u8_get a i).
Proof. intros Hi. unfold u8_get. rewrite decide_True by done. eauto. Qed.

(** *** Loops *)

Lemma for_loop_invariant {S : Type} (P : Z → S → Prop) (body : Z → S → S) n i s :
  P i s →
  (∀ j t, i <= j < i + Z.of_nat n → P j t → P (j + 1) (body j t)) →
  P (i + Z.of_nat n) (for_loop n i body s).
Proof.
  revert i s. induction n as [|n IH]; intros i s H0 Hstep.
  - simpl. by rewrite Z.add_0_r.
  - cbn [for_loop].
    replace (i + Z.of_nat (Datatypes.S n)) with ((i + 1) + Z.of_nat n) by lia.
    apply IH.
    + apply Hstep; [lia | done].
    + intros j t Hj. apply Hstep. lia.
Qed.

Lemma for_upto_invariant {S : Type} (P : Z → S → Prop) (body : Z → S → S) hi s :
  0 <= hi →
  P 0 s →
  (∀ j t, 0 <= j < hi → P j t → P (j + 1) (body j t)) →
  P hi (for_upto hi body s).
Proof.
  intros Hhi H0 Hstep. unfold for_upto.
  pose proof (for_loop_invariant P body (Z.to_nat hi) 0 s H0) as H.
  rewrite Z2Nat.id in H by done. simpl in H. apply H.
  intros j t Hj. apply Hstep. lia.
Qed.

Lemma for_upto_nonpos {S : Type} (body : Z → S → S) hi s :
  hi <= 0 → for_upto hi body s = s.
Proof.
  intros Hhi. unfold for_upto.
  replace (Z.to_nat hi) with 0%nat by lia. reflexivity.
Qed.

(** *** Canvas cells *)

Lemma COLORS_length_16 : COLORS_length = 16.
Proof. reflexivity. Qed.

Lemma getPixelIndex_range x y :
  0 <= x < CANVAS_SIZE → 0 <= y < CANVAS_SIZE →
  0 <= getPixelIndex x y < canvas_length.
Proof. unfold getPixelIndex, canvas_length, CANVAS_SIZE. lia. Qed.

Lemma getPixelIndex_inj x y x' y' :
  0 <= x < CANVAS_SIZE → 0 <= x' < CANVAS_SIZE →
  getPixelIndex x y = getPixelIndex x' y' → x = x' ∧ y = y'.
Proof. unfold getPixelIndex, CANVAS_SIZE. lia. Qed.

Lemma setPixel_accepts c x y k :
  0 <= x < CANVAS_SIZE → 0 <= y < CANVAS_SIZE → 0 <= k < COLORS_length →
  setPixel c x y k = (true, <[getPixelIndex x y := to_uint8 k]> c).
Proof.
  intros Hx Hy Hk. unfold setPixel.
  replace ((x <? 0) || (x >=? CANVAS_SIZE) || (y <? 0) || (y >=? CANVAS_SIZE))
    with false by lia.
  replace ((k <? 0) || (k >=? COLORS_length)) with false by lia.
  unfold u8_set, canvas_array. simpl.
  rewrite decide_True by (by apply getPixelIndex_range). reflexivity.
Qed.

Lemma setPixel_rejects c x y k :
  ¬ (0 <= x < CANVAS_SIZE ∧ 0 <= y < CANVAS_SIZE ∧ 0 <= k < COLORS_length) →
  setPixel c x y k = (false, c).
Proof.
  intros Hbad. unfold setPixel.
  destruct ((x <? 0) || (x >=? CANVAS_SIZE) || (y <? 0) || (y >=? CANVAS_SIZE)) eqn:E1;
    [done |].
  destruct ((k <? 0) || (k >=? COLORS_length)) eqn:E2; [done |].
  exfalso. apply Hbad. lia.
Qed.

Lemma getPixel_insert_eq c x y b :
  0 <= x < CANVAS_SIZE → 0 <= y < CANVAS_SIZE →
  getPixel (<[getPixelIndex x y := b]> c) x y = Some (byte_val b).
Proof.
  intros Hx Hy. unfold getPixel, u8_get, canvas_array. simpl.
  rewrite decide_True by (by apply getPixelIndex_range).
  by rewrite lookup_insert_eq.
Qed.

Lemma getPixel_insert_ne c i x y b :
  i ≠ getPixelIndex x y →
  getPixel (<[i := b]> c) x y = getPixel c x y.
Proof.
  intros Hne. unfold getPixel, u8_get, canvas_array. simpl.
  case_decide; [| done]. by rewrite lookup_insert_ne.
Qed.

(** C1. Inside the canvas and with a palette index, [setPixel] returns
    [true] and [getPixel] at the same cell then returns the index set. *)
Theorem setPixel_then_getPixel (c : Canvas) (x y colorIndex : Z) :
  0 <= x < CANVAS_SIZE → 0 <= y < CANVAS_SIZE → 0 <= colorIndex < 16 →
  fst (setPixel c x y colorIndex) = true ∧
  getPixel (snd (setPixel c x y colorIndex)) x y = Some colorIndex.
Proof.
  intros Hx Hy Hk.
  rewrite setPixel_accepts by (rewrite ?COLORS_length_16; done). simpl.
  split; [done |].
  rewrite getPixel_insert_eq by done.
  rewrite byte_val_to_uint8, Z.mod_small by lia. done.
Qed.

Lemma setPixel_then_getPixel_witness :
  fst (setPixel canvas0 1999 0 15) = true ∧
  getPixel (snd (setPixel canvas0 1999 0 15)) 1999 0 = Some 15.
Proof.
  apply (setPixel_then_getPixel canvas0 1999 0 15); unfold CANVAS_SIZE; lia.
Defined.

(** C2. A coordinate outside the canvas or a colour index outside the
    palette makes [setPixel] return [false] and leave the canvas as it
    was. *)
Theorem setPixel_out_of_range (c : Canvas) (x y colorIndex : Z) :
  x < 0 ∨ x >= CANVAS_SIZE ∨ y < 0 ∨ y >= CANVAS_SIZE ∨
  colorIndex < 0 ∨ colorIndex >= 16 →
  setPixel c x y colorIndex = (false, c).
Proof.
  intros Hbad. apply setPixel_rejects. rewrite COLORS_length_16. lia.
Qed.

Lemma setPixel_out_of_range_witness :
  setPixel (snd (setPixel canvas0 3 4 5)) 2000 4 5
  = (false, snd (setPixel canvas0 3 4 5)).
Proof.
  apply (setPixel_out_of_range _ 2000 4 5). unfold CANVAS_SIZE. lia.
Defined.

(** *** Cooldown *)

Lemma canUserDraw_absent (cooldowns : gmap string Z) userId now :
  cooldowns !! userId = None → canUserDraw cooldowns userId now = true.
Proof. intros H. unfold canUserDraw. by rewrite H. Qed.

Lemma canUserDraw_present (cooldowns : gmap string Z) userId now t :
  cooldowns !! userId = Some t →
  canUserDraw cooldowns userId now = (t =? 0) || (now - t >=? COOLDOWN_MS).
Proof.
  intros H. unfold canUserDraw. rewrite H. simpl.
  destruct (t =? 0); reflexivity.
Qed.


(** X30. Away from the clock reading 0 the cooldown window is exact: an
    identity without a record may draw; after a draw recorded at a non-zero reading [t],
    [canUserDraw] at [t'] is false while [t' - t < COOLDOWN_MS] and true
    once [t' - t >= COOLDOWN_MS]. *)
Theorem canUserDraw_window (cooldowns : gmap string Z) (userId : string) (t t' : Z) :
  t ≠ 0 →
  (cooldowns !! userId = None → canUserDraw cooldowns userId t' = true) ∧
  (t' - t < 5000 →
   canUserDraw (updateUserCooldown cooldowns userId t) userId t' = false) ∧
  (t' - t >= 5000 →
   canUserDraw (updateUserCooldown cooldowns userId t) userId t' = true).
Proof.
  intros Ht. split; [apply canUserDraw_absent |].
  assert (updateUserCooldown cooldowns userId t !! userId = Some t) as Hl
    by apply lookup_insert_eq.
  rewrite (canUserDraw_present _ _ _ _ Hl).
  unfold COOLDOWN_MS. split; intros; lia.
Qed.

Lemma canUserDraw_window_witness :
  canUserDraw ∅ "u"%string 2000 = true ∧
  canUserDraw (updateUserCooldown ∅ "u"%string 1000) "u"%string 5999 = false ∧
  canUserDraw (updateUserCooldown ∅ "u"%string 1000) "u"%string 6000 = true.
Proof.
  assert (1000 ≠ 0) as Hne by lia.
  pose proof (canUserDraw_window ∅ "u"%string 1000 2000 Hne) as (H1 & _ & _).
  pose proof (canUserDraw_window ∅ "u"%string 1000 5999 Hne) as (_ & H2 & _).
  pose proof (canUserDraw_window ∅ "u"%string 1000 6000 Hne) as (_ & _ & H3).
  split; [apply H1; reflexivity |].
  split; [apply H2; lia | apply H3; lia].
Defined.

Lemma sweepCooldowns_lookup (cooldowns : gmap string Z) now userId :
  sweepCooldowns cooldowns now !! userId =
  match cooldowns !! userId with
  | Some t => if decide (now - t > COOLDOWN_MS * 10) then None else Some t
  | None => None
  end.
Proof.
  unfold sweepCooldowns. rewrite map_lookup_filter.
  destruct (cooldowns !! userId) as [t|]; simpl; [| done].
  case_decide.
  - rewrite option_guard_False by (simpl; tauto). done.
  - rewrite option_guard_True by (simpl; tauto). done.
Qed.

(** C10. The sweep at [now] deletes exactly the records with
    [now - timestamp > 10 * COOLDOWN_MS], and [canUserDraw] at any time
    from [now] on answers the same before and after it. *)
Theorem sweepCooldowns_keeps_canUserDraw
    (cooldowns : gmap string Z) (userId : string) (now t : Z) :
  now <= t →
  (∀ ts, cooldowns !! userId = Some ts →
         sweepCooldowns cooldowns now !! userId =
         if decide (now - ts > 10 * 5000) then None else Some ts) ∧
  (cooldowns !! userId = None → sweepCooldowns cooldowns now !! userId = None) ∧
  canUserDraw (sweepCooldowns cooldowns now) userId t
  = canUserDraw cooldowns userId t.
Proof.
  intros Hle. pose proof (sweepCooldowns_lookup cooldowns now userId) as Hs.
  split; [| split].
  - intros ts Hts. rewrite Hs, Hts. unfold COOLDOWN_MS.
    destruct (decide (now - ts > 5000 * 10)), (decide (now - ts > 10 * 5000));
      try done; lia.
  - intros Hn. by rewrite Hs, Hn.
  - destruct (cooldowns !! userId) as [ts|] eqn:E.
    + rewrite (canUserDraw_present cooldowns _ _ _ E).
      destruct (decide (now - ts > COOLDOWN_MS * 10)) as [Hold|Hnew].
      * rewrite canUserDraw_absent by done.
        unfold COOLDOWN_MS in *. lia.
      * by rewrite (canUserDraw_present _ _ _ _ Hs).
    + rewrite !canUserDraw_absent; done.
Qed.

Lemma sweepCooldowns_keeps_canUserDraw_witness :
  canUserDraw (sweepCooldowns (<["u"%string := 1000]> ∅) 60000) "u"%string 60000
  = canUserDraw (<["u"%string := 1000]> ∅) "u"%string 60000.
Proof.
  apply (sweepCooldowns_keeps_canUserDraw (<["u"%string := 1000]> ∅) "u"%string
           60000 60000).
  lia.
Defined.

(** *** Regions *)

Lemma inCanvas_spec wx wy :
  inCanvas wx wy = true ↔ 0 <= wx < CANVAS_SIZE ∧ 0 <= wy < CANVAS_SIZE.
Proof. unfold inCanvas. lia. Qed.

Lemma store_of_get a i b j v :
  u8_get a i = Some v → 0 <= j < u8_length b →
  u8_get (u8_set b j (u8_get a i)) j = Some v.
Proof.
  intros Hget Hj. rewrite u8_get_set_eq by done. rewrite Hget. simpl.
  rewrite byte_val_to_uint8, Z.mod_small; [done |].
  by eapply u8_get_range.
Qed.

Lemma getPixel_defined c wx wy :
  inCanvas wx wy = true → is_Some (getPixel c wx wy).
Proof.
  intros [Hx Hy]%inCanvas_spec. apply u8_get_defined. simpl.
  by apply getPixelIndex_range.
Qed.

Lemma row_major_inj width dx dy dx' dy' :
  0 <= dx < width → 0 <= dx' < width →
  dy' * width + dx' = dy * width + dx → dy' = dy ∧ dx' = dx.
Proof.
  intros Hdx Hdx' Heq.
  assert (dy' = dy) as ->.
  { destruct (Z.lt_trichotomy dy' dy) as [Hlt|[Heq'|Hgt]]; [| done |]; exfalso.
    - assert ((dy' + 1) * width <= dy * width)
        by (apply Z.mul_le_mono_nonneg_r; lia).
      lia.
    - assert ((dy + 1) * width <= dy' * width)
        by (apply Z.mul_le_mono_nonneg_r; lia).
      lia. }
  split; [done | lia].
Qed.

Section region_rows.
Variables (c : Canvas) (x y width height : Z).
Hypothesis (Hwidth : 0 <= width) (Hheight : 0 <= height).

Lemma regionColumn_step dy dx region :
  0 <= dy < height → 0 <= dx < width →
  filledUpTo c x y width height dx dy region →
  filledUpTo c x y width height (dx + 1) dy (regionColumn c x y width dy dx region).
Proof.
  intros Hdy Hdx [Hlen Hcells]. unfold regionColumn.
  assert (0 <= dy * width + dx < u8_length region) as Hidx by (rewrite Hlen; nia).
  fold (inCanvas (x + dx) (y + dy)).
  destruct (inCanvas (x + dx) (y + dy)) eqn:Hin.
  - split; [by rewrite u8_length_set |].
    intros dx' dy' Hdx' Hdy'.
    destruct (decide (dy' * width + dx' = dy * width + dx)) as [Heq|Hne].
    + destruct (row_major_inj width dx dy dx' dy') as [-> ->]; [done..|].
      replace ((dy <? dy) || ((dy =? dy) && (dx <? dx + 1))) with true by lia.
      destruct (getPixel_defined c _ _ Hin) as [v Hv].
      unfold regionCell. rewrite Hin, Hv.
      by apply store_of_get.
    + rewrite u8_get_set_ne by done. rewrite Hcells by done.
      assert (¬ (dy' = dy ∧ dx' = dx)) by (intros [-> ->]; done).
      replace ((dy' <? dy) || ((dy' =? dy) && (dx' <? dx + 1)))
        with ((dy' <? dy) || ((dy' =? dy) && (dx' <? dx))) by lia.
      done.
  - split; [done |].
    intros dx' dy' Hdx' Hdy'. rewrite Hcells by done.
    destruct (decide (dy' = dy ∧ dx' = dx)) as [[-> ->]|Hne].
    + replace ((dy <? dy) || ((dy =? dy) && (dx <? dx + 1))) with true by lia.
      replace ((dy <? dy) || ((dy =? dy) && (dx <? dx))) with false by lia.
      unfold regionCell. by rewrite Hin.
    + replace ((dy' <? dy) || ((dy' =? dy) && (dx' <? dx + 1)))
        with ((dy' <? dy) || ((dy' =? dy) && (dx' <? dx))) by lia.
      done.
Qed.

Lemma regionRow_step dy region :
  0 <= dy < height →
  filledUpTo c x y width height 0 dy region →
  filledUpTo c x y width height 0 (dy + 1)
             (for_upto width (regionColumn c x y width dy) region).
Proof.
  intros Hdy Hstart.
  assert (filledUpTo c x y width height width dy
            (for_upto width (regionColumn c x y width dy) region)) as [Hlen Hcells].
  { apply (for_upto_invariant (λ dx r, filledUpTo c x y width height dx dy r));
      [done | done |].
    intros dx r Hdx. by apply regionColumn_step. }
  split; [done |].
  intros dx' dy' Hdx' Hdy'. rewrite Hcells by done.
  replace ((dy' <? dy + 1) || ((dy' =? dy + 1) && (dx' <? 0)))
    with ((dy' <? dy) || ((dy' =? dy) && (dx' <? width))) by lia.
  done.
Qed.

Lemma getRegion_filled maxLength :
  getRegionEnding maxLength width height = Returns →
  ∃ region,
    getRegionOn maxLength c x y width height = Some region ∧
    filledUpTo c x y width height 0 height region.
Proof.
  intros Hret. unfold getRegionOn. rewrite Hret.
  eexists. split; [reflexivity |].
  apply (for_upto_invariant (λ dy r, filledUpTo c x y width height 0 dy r));
    [done | |].
  - split; [done |]. intros dx' dy' Hdx' Hdy'.
    replace ((dy' <? 0) || ((dy' =? 0) && (dx' <? 0))) with false by lia.
    apply u8_get_new. nia.
  - intros dy r Hdy Hr. by apply regionRow_step.
Qed.
End region_rows.

Lemma getRegionEnding_returns maxLength width height :
  0 <= width * height →
  width * height <= maxLength → width * height <= MAX_SAFE_INTEGER →
  height <= MAX_SAFE_INTEGER + 1 →
  getRegionEnding maxLength width height = Returns.
Proof.
  intros Harea Hfits Hsafe Htall. unfold getRegionEnding.
  replace ((width * height <? 0) ||
           (Z.min maxLength MAX_SAFE_INTEGER <? width * height)) with false by lia.
  by replace (MAX_SAFE_INTEGER + 1 <? height) with false by lia.
Qed.

(** C3, as stated, fails for a rectangle larger than any typed array:
    for a 2^27 x 2^27 request the allocation of line 50 raises
    [RangeError] and no region is returned. *)
Lemma getRegion_too_large :
  0 <= 2 ^ 27 ∧
  getRegionEnding MAX_SAFE_INTEGER (2 ^ 27) (2 ^ 27) = RaisesRangeError ∧
  getRegion canvas0 0 0 (2 ^ 27) (2 ^ 27) = None.
Proof. split; [lia |]. split; reflexivity. Qed.

(** C3, amended. For non-negative [width] and [height] whose product the
    engine can allocate as a typed array (at most its capacity and at
    most 2^53 - 1), [height] being at most 2^53, [getRegion] returns a
    buffer of [width * height] entries; the entry for [(dx, dy)] is the
    canvas cell at [(x + dx, y + dy)] when that lies inside the canvas
    and 0 otherwise; a rectangle entirely outside the canvas gives a
    buffer of zeros. *)
Theorem getRegion_cells (maxLength : Z) (c : Canvas) (x y width height : Z) :
  0 <= width → 0 <= height →
  width * height <= maxLength → width * height <= MAX_SAFE_INTEGER →
  height <= MAX_SAFE_INTEGER + 1 →
  ∃ region,
    getRegionOn maxLength c x y width height = Some region ∧
    u8_length region = width * height ∧
    (∀ dx dy, 0 <= dx < width → 0 <= dy < height →
       u8_get region (dy * width + dx) =
       if decide (0 <= x + dx < CANVAS_SIZE ∧ 0 <= y + dy < CANVAS_SIZE)
       then getPixel c (x + dx) (y + dy) else Some 0) ∧
    ((∀ dx dy, 0 <= dx < width → 0 <= dy < height →
        ¬ (0 <= x + dx < CANVAS_SIZE ∧ 0 <= y + dy < CANVAS_SIZE)) →
     ∀ i, 0 <= i < width * height → u8_get region i = Some 0).
Proof.
  intros Hw Hh Hfits Hsafe Htall.
  assert (getRegionEnding maxLength width height = Returns) as Hret
    by (apply getRegionEnding_returns; [nia | done..]).
  destruct (getRegion_filled c x y width height Hw Hh maxLength Hret)
    as (region & Hreg & Hlen & Hcells).
  exists region. split; [done |]. split; [done |].
  assert (∀ dx dy, 0 <= dx < width → 0 <= dy < height →
            u8_get region (dy * width + dx) =
            if decide (0 <= x + dx < CANVAS_SIZE ∧ 0 <= y + dy < CANVAS_SIZE)
            then getPixel c (x + dx) (y + dy) else Some 0) as Hall.
  { intros dx dy Hdx Hdy. rewrite Hcells by done.
    replace ((dy <? height) || ((dy =? height) && (dx <? 0))) with true by lia.
    unfold regionCell.
    destruct (inCanvas (x + dx) (y + dy)) eqn:Hin.
    - apply inCanvas_spec in Hin. by rewrite decide_True.
    - rewrite decide_False; [done |].
      intros Hin'. apply inCanvas_spec in Hin'. congruence. }
  split; [done |].
  intros Hout i Hi.
  assert (0 < width) as Hpos by nia.
  pose proof (Z.mod_pos_bound i width Hpos) as Hmod.
  pose proof (Z.div_mod i width ltac:(lia)) as Hdm.
  assert (0 <= i / width < height) as Hdiv.
  { split; [apply Z.div_pos; lia |].
    apply Z.div_lt_upper_bound; [done | nia]. }
  replace i with ((i / width) * width + i mod width) by lia.
  rewrite Hall by done. rewrite decide_False; [done |]. by apply Hout.
Qed.

Lemma getRegion_cells_witness :
  ∃ region,
    getRegionOn 4000000 (snd (setPixel canvas0 0 0 3)) (-1) 0 3 2 = Some region ∧
    u8_length region = 6 ∧
    u8_get region 0 = Some 0 ∧ u8_get region 1 = Some 3.
Proof.
  destruct (getRegion_cells 4000000 (snd (setPixel canvas0 0 0 3)) (-1) 0 3 2)
    as (region & Hreg & Hlen & Hcells & _);
    [lia | lia | lia | unfold MAX_SAFE_INTEGER; lia | unfold MAX_SAFE_INTEGER; lia |].
  exists region. split; [exact Hreg |]. split; [exact Hlen |].
  split.
  - apply (Hcells 0 0); lia.
  - apply (Hcells 1 0); lia.
Defined.

(** *** Draw requests *)

Lemma canUserDraw_false (cooldowns : gmap string Z) userId now :
  canUserDraw cooldowns userId now = false →
  ∃ lastDraw, cooldowns !! userId = Some lastDraw ∧ lastDraw ≠ 0 ∧
              now - lastDraw < COOLDOWN_MS.
Proof.
  destruct (cooldowns !! userId) as [t|] eqn:E.
  - rewrite (canUserDraw_present _ _ _ _ E). intros H.
    exists t. split; [done |]. lia.
  - by rewrite canUserDraw_absent.
Qed.

Lemma onDrawPixel_cooldown userId x y color now1 now2 now3 s :
  canUserDraw (userCooldowns s) userId now1 = false →
  ∃ lastDraw,
    userCooldowns s !! userId = Some lastDraw ∧
    onDrawPixel userId x y color now1 now2 now3 s
    = (s, [CooldownReply (Some (COOLDOWN_MS - (now2 - lastDraw)))]).
Proof.
  intros Hcan. destruct (canUserDraw_false _ _ _ Hcan) as (t & Ht & _).
  exists t. split; [done |].
  unfold onDrawPixel. rewrite Hcan, Ht. reflexivity.
Qed.

Lemma onDrawPixel_dropped userId x y color now1 now2 now3 s :
  canUserDraw (userCooldowns s) userId now1 = true →
  fst (setPixel (canvas s) x y color) = false →
  onDrawPixel userId x y color now1 now2 now3 s = (s, []).
Proof.
  intros Hcan Hset. unfold onDrawPixel. rewrite Hcan. simpl.
  destruct (setPixel (canvas s) x y color) as [ok c']. simpl in Hset.
  by rewrite Hset.
Qed.

Lemma onDrawPixel_accepted userId x y color now1 now2 now3 s :
  canUserDraw (userCooldowns s) userId now1 = true →
  fst (setPixel (canvas s) x y color) = true →
  onDrawPixel userId x y color now1 now2 now3 s
  = (mkServer (snd (setPixel (canvas s) x y color))
              (updateUserCooldown (userCooldowns s) userId now2)
              (pendingUpdates s ++ [mkUpdate x y color]),
     [DrawSuccess (now3 + COOLDOWN_MS)]).
Proof.
  intros Hcan Hset. unfold onDrawPixel. rewrite Hcan. simpl.
  destruct (setPixel (canvas s) x y color) as [ok c']. simpl in Hset.
  by rewrite Hset.
Qed.

Lemma onDrawPixel_outcome userId x y color now1 now2 now3 s :
  DrawOutcome userId x y color now1 now2 now3 s
              (onDrawPixel userId x y color now1 now2 now3 s).
Proof.
  destruct (canUserDraw (userCooldowns s) userId now1) eqn:Hcan.
  - destruct (fst (setPixel (canvas s) x y color)) eqn:Hset.
    + rewrite onDrawPixel_accepted by done. by constructor.
    + rewrite onDrawPixel_dropped by done. by constructor.
  - destruct (onDrawPixel_cooldown userId x y color now1 now2 now3 s Hcan)
      as (t & Ht & ->).
    by constructor.
Qed.

(** C5, as stated, fails when the clock advances between the recording of
    the cooldown and the reply: the draw is recorded at 1000, so the next
    draw is eligible from 6000 on, but the reply carries 6001. *)
Lemma onDrawPixel_reply_after_clock_tick :
  onDrawPixel "u"%string 5 5 3 1000 1000 1001 server0
  = (mkServer (<[getPixelIndex 5 5 := to_uint8 3]> canvas0)
              (<["u"%string := 1000]> ∅) [mkUpdate 5 5 3],
     [DrawSuccess 6001]) ∧
  canUserDraw (<["u"%string := 1000]> ∅) "u"%string 6000 = true ∧
  canUserDraw (<["u"%string := 1000]> ∅) "u"%string 5999 = false.
Proof. repeat split; reflexivity. Qed.

(** C5, amended. A request made while [canUserDraw] is false only gets a
    cooldown reply, carrying the window minus the time elapsed since the
    last accepted draw, and changes nothing; otherwise a request that
    [setPixel] refuses gets no reply and changes nothing; otherwise the
    cell is written, the cooldown is recorded, one update is appended to
    the pending updates, and the reply carries the clock reading at reply
    time plus the window.  When that reading is the non-zero one recorded
    as cooldown, the reply's timestamp is exactly the first time at which
    the user may draw again. *)
Theorem onDrawPixel_steps (userId : string) (x y color now1 now2 now3 : Z) (s : Server) :
  (canUserDraw (userCooldowns s) userId now1 = false →
   ∃ lastDraw,
     userCooldowns s !! userId = Some lastDraw ∧
     onDrawPixel userId x y color now1 now2 now3 s
     = (s, [CooldownReply (Some (COOLDOWN_MS - (now2 - lastDraw)))])) ∧
  (canUserDraw (userCooldowns s) userId now1 = true →
   fst (setPixel (canvas s) x y color) = false →
   onDrawPixel userId x y color now1 now2 now3 s = (s, [])) ∧
  (canUserDraw (userCooldowns s) userId now1 = true →
   fst (setPixel (canvas s) x y color) = true →
   onDrawPixel userId x y color now1 now2 now3 s
   = (mkServer (snd (setPixel (canvas s) x y color))
               (updateUserCooldown (userCooldowns s) userId now2)
               (pendingUpdates s ++ [mkUpdate x y color]),
      [DrawSuccess (now3 + COOLDOWN_MS)])) ∧
  (now3 = now2 → now2 ≠ 0 →
   ∀ t, canUserDraw (updateUserCooldown (userCooldowns s) userId now2) userId t = true
        ↔ now3 + COOLDOWN_MS <= t).
Proof.
  split; [apply onDrawPixel_cooldown |].
  split; [apply onDrawPixel_dropped |].
  split; [apply onDrawPixel_accepted |].
  intros -> Hnz t.
  assert (updateUserCooldown (userCooldowns s) userId now2 !! userId = Some now2) as Hl
    by apply lookup_insert_eq.
  rewrite (canUserDraw_present _ _ _ _ Hl). lia.
Qed.

Lemma onDrawPixel_steps_witness :
  onDrawPixel "u"%string 5 5 3 1000 1000 1000 server0
  = (mkServer (snd (setPixel canvas0 5 5 3))
              (updateUserCooldown ∅ "u"%string 1000) [mkUpdate 5 5 3],
     [DrawSuccess 6000]) ∧
  (canUserDraw (updateUserCooldown ∅ "u"%string 1000) "u"%string 6000 = true
   ↔ 1000 + COOLDOWN_MS <= 6000).
Proof.
  destruct (onDrawPixel_steps "u"%string 5 5 3 1000 1000 1000 server0)
    as (_ & _ & Haccept & Hnext).
  split.
  - apply Haccept; reflexivity.
  - apply (Hnext eq_refl); lia.
Defined.

(** *** Broadcast batches *)

Lemma broadcastTick_cases s :
  broadcastTick s =
  match pendingUpdates s with
  | [] => (s, None)
  | _ :: _ => (mkServer (canvas s) (userCooldowns s) [], Some (pendingUpdates s))
  end.
Proof. unfold broadcastTick. by destruct (pendingUpdates s). Qed.

Lemma step_conserved p0 ev st : conserved p0 st → conserved p0 (step ev st).
Proof.
  destruct st as [s tr]. intros [Hcat Hne]. simpl in *.
  destruct ev as [userId x y color now1 now2 now3|]; simpl.
  - destruct (onDrawPixel_outcome userId x y color now1 now2 now3 s); simpl.
    + done.
    + done.
    + split; [| done]. simpl. by rewrite !app_assoc, Hcat.
  - rewrite broadcastTick_cases.
    destruct (pendingUpdates s) as [|u us] eqn:Hp; simpl.
    + split; [| done]. simpl. by rewrite Hp.
    + split.
      * simpl. rewrite concat_app. simpl. by rewrite !app_nil_r.
      * apply Forall_app. split; [done |]. by repeat constructor.
Qed.

Lemma fold_step_conserved p0 evs st :
  conserved p0 st → conserved p0 (fold_left (λ st ev, step ev st) evs st).
Proof.
  revert st. induction evs as [|ev evs IH]; intros st Hst; simpl; [done |].
  apply IH. by apply step_conserved.
Qed.

Lemma run_conserved evs s : conserved (pendingUpdates s) (run evs s).
Proof.
  apply fold_step_conserved. split; simpl; [by rewrite app_nil_r | constructor].
Qed.

Lemma run_snoc evs ev s : run (evs ++ [ev]) s = step ev (run evs s).
Proof. unfold run. by rewrite fold_left_app. Qed.

Lemma tick_drains st : pendingUpdates (step EvTick st).1 = [].
Proof.
  destruct st as [s tr]. simpl. rewrite broadcastTick_cases.
  by destruct (pendingUpdates s) eqn:E.
Qed.

(** C6. A tick with pending updates sends them all as one batch and
    empties the queue; a tick with none sends nothing.  Over any sequence
    of draw requests and ticks, the batches sent so far, concatenated in
    order and followed by the updates still pending, are exactly the
    accepted draws in order; after a tick nothing is pending, so the
    concatenated batches are exactly the accepted draws. *)
Theorem broadcast_batches_are_the_accepted_draws (evs : list Event) (s : Server) :
  broadcastTick s =
    match pendingUpdates s with
    | [] => (s, None)
    | _ :: _ => (mkServer (canvas s) (userCooldowns s) [], Some (pendingUpdates s))
    end ∧
  concat (batches (run evs s).2) ++ pendingUpdates (run evs s).1
    = pendingUpdates s ++ accepted (run evs s).2 ∧
  concat (batches (run (evs ++ [EvTick]) s).2)
    = pendingUpdates s ++ accepted (run (evs ++ [EvTick]) s).2 ∧
  Forall (λ b, b ≠ []) (batches (run evs s).2).
Proof.
  split; [apply broadcastTick_cases |].
  destruct (run_conserved evs s) as [Hcat Hne].
  split; [done |]. split; [| done].
  destruct (run_conserved (evs ++ [EvTick]) s) as [Hcat' _].
  rewrite run_snoc in *. rewrite tick_drains, app_nil_r in Hcat'. done.
Qed.

(** *** Nearest palette colour *)

Lemma paletteRGB_lift : paletteRGB = map lift paletteTriples.
Proof. reflexivity. Qed.

Lemma paletteTriples_length : length paletteTriples = 16%nat.
Proof. reflexivity. Qed.

Lemma sqDist_lift r g b p : sqDist (Some r) (Some g) (Some b) (lift p) = Some (dist3 r g b p).
Proof. by destruct p as [[pr pg] pb]. Qed.

Lemma scanPalette_range pal i r g b bestIndex bestDist :
  scanPalette pal i r g b bestIndex bestDist = bestIndex ∨
  i <= scanPalette pal i r g b bestIndex bestDist < i + Z.of_nat (length pal).
Proof.
  revert i bestIndex bestDist. induction pal as [|p pal IH]; intros i bi bd; simpl.
  - by left.
  - destruct (lt_bound (sqDist r g b p) bd).
    + destruct (IH (i + 1) i (match sqDist r g b p with
                              | Some d => Finite d | None => bd end)) as [->|H];
        right; lia.
    + destruct (IH (i + 1) bi bd) as [->|H]; [by left | right; lia].
Qed.

Lemma nearestColor_range r g b : 0 <= nearestColor r g b < 16.
Proof.
  unfold nearestColor.
  destruct (scanPalette_range paletteRGB 0 r g b 0 Infinity) as [->|H]; [lia |].
  exact H.
Qed.

(** The scan keeps the first index of minimal distance among the entries
    seen so far. *)
Lemma scanPalette_keeps_first r g b rest : ∀ pre bestIndex p,
  pre !! Z.to_nat bestIndex = Some p →
  firstNearest pre r g b bestIndex →
  firstNearest (pre ++ rest) r g b
    (scanPalette (map lift rest) (Z.of_nat (length pre)) (Some r) (Some g) (Some b)
                 bestIndex (Finite (dist3 r g b p))).
Proof.
  induction rest as [|q rest IH]; intros pre bi p Hp Hbest; simpl.
  - by rewrite app_nil_r.
  - rewrite sqDist_lift. simpl.
    destruct Hbest as (Hbi & p' & Hp' & Hmin).
    assert (p' = p) as -> by congruence.
    assert (Z.to_nat bi < length pre)%nat as Hlt by (by eapply lookup_lt_Some).
    replace (pre ++ q :: rest) with ((pre ++ [q]) ++ rest) by (by rewrite <- app_assoc).
    replace (Z.of_nat (length pre) + 1) with (Z.of_nat (length (pre ++ [q])))
      by (rewrite length_app; simpl; lia).
    destruct (dist3 r g b q <? dist3 r g b p) eqn:Hcmp.
    + apply IH.
      * rewrite Nat2Z.id. by rewrite lookup_app_r, Nat.sub_diag.
      * split; [lia |]. exists q. split.
        { rewrite Nat2Z.id. by rewrite lookup_app_r, Nat.sub_diag. }
        intros j q' Hq'.
        destruct (decide (j < length pre)%nat) as [Hj|Hj].
        -- rewrite lookup_app_l in Hq' by done.
           destruct (Hmin j q' Hq') as [Hle _]. lia.
        -- rewrite lookup_app_r in Hq' by lia.
           destruct (j - length pre)%nat as [|n] eqn:Hn; [| done].
           simpl in Hq'. injection Hq' as <-. lia.
    + apply IH.
      * by rewrite lookup_app_l.
      * split; [done |]. exists p. split; [by rewrite lookup_app_l |].
        intros j q' Hq'.
        destruct (decide (j < length pre)%nat) as [Hj|Hj].
        -- rewrite lookup_app_l in Hq' by done. by apply Hmin.
        -- rewrite lookup_app_r in Hq' by lia.
           destruct (j - length pre)%nat as [|n] eqn:Hn; [| done].
           simpl in Hq'. injection Hq' as <-. lia.
Qed.

Lemma nearestColor_first r g b :
  firstNearest paletteTriples r g b (nearestColor (Some r) (Some g) (Some b)).
Proof.
  unfold nearestColor. rewrite paletteRGB_lift.
  destruct paletteTriples as [|p rest] eqn:E; [done |].
  cbn [map scanPalette]. rewrite sqDist_lift. cbn [lt_bound].
  apply (scanPalette_keeps_first r g b rest [p] 0 p); [done |].
  split; [done |]. exists p. split; [done |].
  intros [|j] q Hq; [| done]. injection Hq as <-. lia.
Qed.

Lemma nearestColor_minimal r g b :
  let k := nearestColor (Some r) (Some g) (Some b) in
  ∃ dk, colorDistance r g b k = Some dk ∧
        ∀ j dj, 0 <= j → colorDistance r g b j = Some dj →
                dk <= dj ∧ (j < k → dk < dj).
Proof.
  intros k. destruct (nearestColor_first r g b) as (Hk & p & Hp & Hmin).
  fold k in Hp, Hmin. exists (dist3 r g b p). unfold colorDistance.
  split; [by rewrite Hp |].
  intros j dj Hj Hdj.
  destruct (paletteTriples !! Z.to_nat j) as [q|] eqn:Hq; [| done].
  injection Hdj as <-.
  destruct (Hmin _ _ Hq) as [Hle Hlt]. split; [done |].
  intros Hjk. apply Hlt. lia.
Qed.

(** *** Loading a snapshot *)

Lemma for_upto_invariant_max {S : Type} (P : Z → S → Prop) (body : Z → S → S) hi s :
  P 0 s →
  (∀ j t, 0 <= j < hi → P j t → P (j + 1) (body j t)) →
  P (Z.max 0 hi) (for_upto hi body s).
Proof.
  intros H0 Hstep. destruct (Z.le_gt_cases hi 0) as [Hle|Hgt].
  - rewrite for_upto_nonpos by done. by rewrite Z.max_l.
  - rewrite Z.max_r by lia. apply for_upto_invariant; [lia | done | done].
Qed.

Lemma shl32_small a : 0 <= a < 2 ^ 29 → shl32 a 2 = 4 * a.
Proof.
  intros Ha. unfold shl32, to_int32.
  change (Z.land 2 31) with 2.
  rewrite (Z.mod_small (a + 2 ^ 31)) by lia.
  rewrite Z.shiftl_mul_pow2 by lia.
  rewrite Z.mod_small by lia. lia.
Qed.

Lemma quantized_range this x y : 0 <= quantized this x y < 16.
Proof. unfold quantized. apply nearestColor_range. Qed.

Section parsed_rows.
Variables (this : PNG) (c0 : Canvas).

Lemma parsedPixel_step x y c :
  0 <= x < Z.min (png_width this) CANVAS_SIZE → 0 <= y < CANVAS_SIZE →
  loadedUpTo this c0 x y c →
  loadedUpTo this c0 (x + 1) y (snd (setPixel c x y (quantized this x y))).
Proof.
  intros Hx Hy Hc. pose proof (quantized_range this x y) as Hk.
  rewrite setPixel_accepts by (rewrite ?COLORS_length_16; lia). cbn [snd].
  intros x' y' Hx' Hy'.
  destruct (decide (x' = x ∧ y' = y)) as [[-> ->]|Hne].
  - rewrite getPixel_insert_eq by lia.
    replace ((x <? Z.min (png_width this) CANVAS_SIZE) &&
             ((y <? y) || ((y =? y) && (x <? x + 1)))) with true by lia.
    rewrite byte_val_to_uint8, Z.mod_small; [done | lia].
  - rewrite getPixel_insert_ne.
    + rewrite (Hc x' y') by done.
      replace ((y' <? y) || ((y' =? y) && (x' <? x + 1)))
        with ((y' <? y) || ((y' =? y) && (x' <? x))) by lia.
      done.
    + intros Heq. apply Hne.
      destruct (getPixelIndex_inj x y x' y') as [-> ->]; [lia | done | done | done].
Qed.

Lemma parsedRow_step y c :
  0 <= y < CANVAS_SIZE →
  loadedUpTo this c0 0 y c →
  loadedUpTo this c0 0 (y + 1)
    (for_upto (Z.min (png_width this) CANVAS_SIZE)
              (λ x c, snd (setPixel c x y (quantized this x y))) c).
Proof.
  intros Hy Hc.
  pose proof (for_upto_invariant_max
                (λ x c, loadedUpTo this c0 x y c)
                (λ x c, snd (setPixel c x y (quantized this x y)))
                (Z.min (png_width this) CANVAS_SIZE) c Hc) as Hrow.
  simpl in Hrow.
  specialize (Hrow (λ x t Hx Ht, parsedPixel_step x y t Hx Hy Ht)).
  intros x' y' Hx' Hy'. rewrite (Hrow x' y') by done.
  replace ((x' <? Z.min (png_width this) CANVAS_SIZE) &&
           ((y' <? y) || ((y' =? y) &&
                          (x' <? Z.max 0 (Z.min (png_width this) CANVAS_SIZE)))))
    with ((x' <? Z.min (png_width this) CANVAS_SIZE) &&
          ((y' <? y + 1) || ((y' =? y + 1) && (x' <? 0)))) by lia.
  done.
Qed.

Lemma onParsed_unfold :
  (onParsed this c0).1 =
  for_upto (Z.min (png_height this) CANVAS_SIZE) (λ y c,
    for_upto (Z.min (png_width this) CANVAS_SIZE)
             (λ x c, snd (setPixel c x y (quantized this x y))) c) c0.
Proof. unfold onParsed, quantized. cbn [fst]. cbv zeta. reflexivity. Qed.

Lemma onParsed_loaded :
  loadedUpTo this c0 0 (Z.max 0 (Z.min (png_height this) CANVAS_SIZE))
             (onParsed this c0).1.
Proof.
  rewrite onParsed_unfold.
  apply (for_upto_invariant_max (λ y c, loadedUpTo this c0 0 y c)).
  - intros x' y' Hx' Hy'.
    replace ((x' <? Z.min (png_width this) CANVAS_SIZE) &&
             ((y' <? 0) || ((y' =? 0) && (x' <? 0)))) with false by lia.
    done.
  - intros y c Hy Hc. apply parsedRow_step; [lia | done].
Qed.
End parsed_rows.

(** What the ['parsed'] handler leaves in each canvas cell. *)
Lemma onParsed_cells this c x y :
  0 <= x < CANVAS_SIZE → 0 <= y < CANVAS_SIZE →
  getPixel (onParsed this c).1 x y =
  if (x <? Z.min (png_width this) CANVAS_SIZE) &&
     (y <? Z.min (png_height this) CANVAS_SIZE)
  then Some (quantized this x y) else getPixel c x y.
Proof.
  intros Hx Hy. rewrite (onParsed_loaded this c x y) by done.
  replace ((y <? Z.max 0 (Z.min (png_height this) CANVAS_SIZE)) ||
           ((y =? Z.max 0 (Z.min (png_height this) CANVAS_SIZE)) && (x <? 0)))
    with (y <? Z.min (png_height this) CANVAS_SIZE) by lia.
  done.
Qed.

Lemma onParsed_log this c :
  (onParsed this c).2 =
  (if decide (png_width this = CANVAS_SIZE ∧ png_height this = CANVAS_SIZE)
   then [] else [WarnSizeDiffers (png_width this) (png_height this)])
  ++ [LogLoaded].
Proof.
  unfold onParsed. cbn [snd].
  destruct (decide (png_width this = CANVAS_SIZE ∧ png_height this = CANVAS_SIZE))
    as [[-> ->]|Hne].
  - reflexivity.
  - replace (negb (png_width this =? CANVAS_SIZE) || negb (png_height this =? CANVAS_SIZE))
      with true by lia.
    reflexivity.
Qed.

Lemma quantized_pixelAt this x y :
  0 <= y * png_width this + x < 2 ^ 29 →
  quantized this x y =
  let '(r, g, b) := pixelAt this x y in nearestColor r g b.
Proof.
  intros Hidx. unfold quantized, pixelAt. by rewrite shl32_small.
Qed.

(** C8 at its failing input: a 300000 x 2000 image whose buffer holds
    all its pixels, pixel (0, 1790) being #222222, the palette colour of
    index 3. The pixel lies in the overlap with the canvas, but its byte
    offset [(1790 * 300000 + 0) << 2] wraps to a negative number on 32
    bits, the three reads are [undefined], no distance is below
    [Infinity], and the cell is set to index 0, at squared distance
    146523, instead of index 3, at distance 0. *)
Theorem onParsed_broadImage_wraps :
  u8_length (png_data broadImage)
    = 4 * (png_width broadImage * png_height broadImage) ∧
  (0 <= 0 < Z.min (png_width broadImage) CANVAS_SIZE ∧
   0 <= 1790 < Z.min (png_height broadImage) CANVAS_SIZE) ∧
  pixelAt broadImage 0 1790 = (Some 34, Some 34, Some 34) ∧
  colorDistance 34 34 34 3 = Some 0 ∧
  colorDistance 34 34 34 0 = Some 146523 ∧
  shl32 (1790 * png_width broadImage + 0) 2 = -2146967296 ∧
  getPixel (onParsed broadImage canvas0).1 0 1790 = Some 0.
Proof.
  split; [reflexivity |]. split; [by vm_compute |]. split; [by vm_compute |].
  split; [reflexivity |]. split; [reflexivity |]. split; [reflexivity |].
  rewrite onParsed_cells by (unfold CANVAS_SIZE; lia).
  by vm_compute.
Qed.

(** X28. Where the offset does not wrap, the handler quantizes as
    intended: a pixel of the overlap whose index [y * width + x] is
    below 2^29 and whose bytes lie in the image buffer sets its cell to
    the first palette index at minimal squared RGB distance from the
    pixel. *)
Theorem onParsed_overlap_pixel (this : PNG) (c : Canvas) (x y : Z) :
  0 <= x < Z.min (png_width this) CANVAS_SIZE →
  0 <= y < Z.min (png_height this) CANVAS_SIZE →
  y * png_width this + x < 2 ^ 29 →
  4 * (y * png_width this + x) + 3 < u8_length (png_data this) →
  ∃ r g b k,
    pixelAt this x y = (Some r, Some g, Some b) ∧
    getPixel (onParsed this c).1 x y = Some k ∧
    0 <= k < 16 ∧
    ∃ dk, colorDistance r g b k = Some dk ∧
          ∀ j dj, 0 <= j → colorDistance r g b j = Some dj →
                  dk <= dj ∧ (j < k → dk < dj).
Proof.
  intros Hx Hy Hsmall Hlen.
  assert (0 <= y * png_width this + x) as Hoff by nia.
  assert (∀ t, 0 <= t < 4 →
            ∃ v, u8_get (png_data this) (4 * (y * png_width this + x) + t) = Some v)
    as Hread.
  { intros t Ht. apply u8_get_defined. lia. }
  destruct (Hread 0 ltac:(lia)) as [r Hr]. rewrite Z.add_0_r in Hr.
  destruct (Hread 1 ltac:(lia)) as [g Hg].
  destruct (Hread 2 ltac:(lia)) as [b Hb].
  exists r, g, b, (nearestColor (Some r) (Some g) (Some b)).
  assert (pixelAt this x y = (Some r, Some g, Some b)) as Hpix
    by (unfold pixelAt; cbv zeta; by rewrite Hr, Hg, Hb).
  split; [done |]. split; [| split].
  - rewrite onParsed_cells by lia.
    replace ((x <? Z.min (png_width this) CANVAS_SIZE) &&
             (y <? Z.min (png_height this) CANVAS_SIZE)) with true by lia.
    rewrite quantized_pixelAt by lia. by rewrite Hpix.
  - apply nearestColor_range.
  - apply nearestColor_minimal.
Qed.

Lemma onParsed_overlap_pixel_witness :
  ∃ r g b k,
    pixelAt tinyImage 0 0 = (Some r, Some g, Some b) ∧
    getPixel (onParsed tinyImage canvas0).1 0 0 = Some k ∧
    0 <= k < 16 ∧
    ∃ dk, colorDistance r g b k = Some dk ∧
          ∀ j dj, 0 <= j → colorDistance r g b j = Some dj →
                  dk <= dj ∧ (j < k → dk < dj).
Proof.
  apply (onParsed_overlap_pixel tinyImage canvas0 0 0).
  - simpl. unfold CANVAS_SIZE. lia.
  - simpl. unfold CANVAS_SIZE. lia.
  - simpl. lia.
  - simpl. lia.
Defined.

(** X29. For an image of any dimensions and any buffer, a canvas cell
    outside the overlap of image and canvas keeps its value, 0 on a
    fresh canvas. *)
Theorem onParsed_outside_overlap (this : PNG) (c : Canvas) (x y : Z) :
  0 <= x < CANVAS_SIZE → 0 <= y < CANVAS_SIZE →
  ¬ (x < png_width this ∧ y < png_height this) →
  getPixel (onParsed this c).1 x y = getPixel c x y ∧
  getPixel (onParsed this canvas0).1 x y = Some 0.
Proof.
  intros Hx Hy Hout.
  rewrite !onParsed_cells by done.
  replace ((x <? Z.min (png_width this) CANVAS_SIZE) &&
           (y <? Z.min (png_height this) CANVAS_SIZE)) with false by lia.
  split; [done |].
  unfold getPixel. apply u8_get_new. by apply getPixelIndex_range.
Qed.

Lemma onParsed_outside_overlap_witness :
  getPixel (onParsed tinyImage (snd (setPixel canvas0 1 0 9))).1 1 0
    = getPixel (snd (setPixel canvas0 1 0 9)) 1 0 ∧
  getPixel (onParsed tinyImage canvas0).1 1 0 = Some 0.
Proof.
  apply (onParsed_outside_overlap tinyImage (snd (setPixel canvas0 1 0 9)) 1 0).
  - unfold CANVAS_SIZE. lia.
  - unfold CANVAS_SIZE. lia.
  - simpl. lia.
Defined.

(** *** Exporting a snapshot *)

Lemma exportCanvasToPNG_unfold c :
  exportCanvasToPNG c =
  mkPNG CANVAS_SIZE CANVAS_SIZE
        (for_upto canvas_length (exportCell c) (u8_new (4 * CANVAS_SIZE * CANVAS_SIZE))).
Proof. reflexivity. Qed.

Lemma exportCell_step c i data :
  0 <= i < canvas_length →
  exportedUpTo c i data → exportedUpTo c (i + 1) (exportCell c i data).
Proof.
  intros Hi [Hlen Hcells]. unfold exportCell. cbv zeta.
  assert (canvas_length = 4000000) as Hcl by reflexivity.
  assert (4 * CANVAS_SIZE * CANVAS_SIZE = 16000000) as Hdl by reflexivity.
  rewrite shl32_small by lia.
  split; [by rewrite !u8_length_set |].
  intros j Hj.
  destruct (decide (j = i)) as [->|Hne].
  - rewrite !(u8_get_set_ne _ (4 * i + 3)) by lia.
    rewrite !(u8_get_set_ne _ (4 * i + 2) (4 * i)) by lia.
    rewrite !(u8_get_set_ne _ (4 * i + 2) (4 * i + 1)) by lia.
    rewrite !(u8_get_set_ne _ (4 * i + 1) (4 * i)) by lia.
    rewrite !u8_get_set_eq by (rewrite ?u8_length_set; lia).
    done.
  - rewrite !(u8_get_set_ne _ (4 * i + 3)) by lia.
    rewrite !(u8_get_set_ne _ (4 * i + 2)) by lia.
    rewrite !(u8_get_set_ne _ (4 * i + 1)) by lia.
    rewrite !(u8_get_set_ne _ (4 * i)) by lia.
    apply Hcells. lia.
Qed.

Lemma exportCanvasToPNG_rendered c :
  exportedUpTo c canvas_length (png_data (exportCanvasToPNG c)).
Proof.
  rewrite exportCanvasToPNG_unfold. cbn [png_data].
  apply (for_upto_invariant (exportedUpTo c)).
  - done.
  - split; [done |]. intros j Hj. lia.
  - intros i data Hi Hdata. by apply exportCell_step.
Qed.

Lemma nearest_of_exported k :
  0 <= k < 16 →
  nearestColor (stored (exportedRGB (Some k)).1.1)
               (stored (exportedRGB (Some k)).1.2)
               (stored (exportedRGB (Some k)).2) = k.
Proof.
  intros Hk.
  assert (k = 0 ∨ k = 1 ∨ k = 2 ∨ k = 3 ∨ k = 4 ∨ k = 5 ∨ k = 6 ∨ k = 7 ∨
          k = 8 ∨ k = 9 ∨ k = 10 ∨ k = 11 ∨ k = 12 ∨ k = 13 ∨ k = 14 ∨ k = 15)
    as Hcases by lia.
  repeat (destruct Hcases as [->|Hcases]; [by vm_compute |]).
  subst k. by vm_compute.
Qed.

Lemma quantized_exported c x y :
  canvasValid c →
  0 <= x < CANVAS_SIZE → 0 <= y < CANVAS_SIZE →
  Some (quantized (exportCanvasToPNG c) x y) = getPixel c x y.
Proof.
  intros Hvalid Hx Hy.
  pose proof (getPixelIndex_range x y Hx Hy) as Hidx.
  assert (canvas_length = 4000000) as Hcl by reflexivity.
  destruct (exportCanvasToPNG_rendered c) as [_ Hcells].
  destruct (Hcells (getPixelIndex x y) Hidx) as (Hr & Hg & Hb).
  destruct (u8_get_defined (canvas_array c) (getPixelIndex x y) Hidx) as [k Hk].
  unfold getPixel. rewrite Hk in *.
  unfold quantized. cbv zeta.
  change (png_width (exportCanvasToPNG c)) with CANVAS_SIZE.
  fold (getPixelIndex x y).
  rewrite shl32_small by lia.
  rewrite Hr, Hg, Hb. f_equal. apply nearest_of_exported.
  split; [by eapply u8_get_range | by eapply Hvalid].
Qed.

Lemma canvas_index_coords i :
  0 <= i < canvas_length →
  i = getPixelIndex (i mod CANVAS_SIZE) (i / CANVAS_SIZE) ∧
  0 <= i mod CANVAS_SIZE < CANVAS_SIZE ∧ 0 <= i / CANVAS_SIZE < CANVAS_SIZE.
Proof.
  unfold canvas_length, getPixelIndex, CANVAS_SIZE. intros Hi.
  pose proof (Z.div_mod i 2000 ltac:(lia)).
  pose proof (Z.mod_pos_bound i 2000 ltac:(lia)).
  assert (0 <= i / 2000 < 2000).
  { split; [apply Z.div_pos; lia | apply Z.div_lt_upper_bound; lia]. }
  lia.
Qed.

Lemma canvasValid_empty : canvasValid canvas0.
Proof.
  intros i v. unfold u8_get, canvas_array, canvas0. cbn [u8_length u8_cells].
  case_decide; [| done].
  rewrite lookup_empty. simpl. intros [= <-]. done.
Qed.

Lemma canvasValid_setPixel c x y k :
  canvasValid c → canvasValid (snd (setPixel c x y k)).
Proof.
  intros Hc.
  destruct (decide (0 <= x < CANVAS_SIZE ∧ 0 <= y < CANVAS_SIZE ∧
                    0 <= k < COLORS_length)) as [(Hx & Hy & Hk)|Hbad].
  - rewrite setPixel_accepts by done. cbn [snd].
    intros i v. unfold u8_get. case_decide; [| done]. cbn [u8_cells canvas_array].
    destruct (decide (i = getPixelIndex x y)) as [->|Hne].
    + rewrite lookup_insert_eq. simpl. intros [= <-].
      rewrite byte_val_to_uint8. rewrite COLORS_length_16 in Hk.
      rewrite Z.mod_small; lia.
    + rewrite lookup_insert_ne by done. intros Hv. apply (Hc i v).
      unfold u8_get. by rewrite decide_True.
  - by rewrite setPixel_rejects.
Qed.

(** C7. For a canvas whose cells all hold palette indices, loading the
    image that [exportCanvasToPNG] renders gives back, cell for cell, the
    canvas exported, whatever the canvas loaded into held before; the
    load logs no warning. *)
Theorem export_then_load_roundtrip (c c0 : Canvas) :
  canvasValid c →
  (∀ i, u8_get (canvas_array (loadCanvasFromPNG (Image (exportCanvasToPNG c)) c0).1) i
        = u8_get (canvas_array c) i) ∧
  (∀ x y, 0 <= x < CANVAS_SIZE → 0 <= y < CANVAS_SIZE →
          getPixel (loadCanvasFromPNG (Image (exportCanvasToPNG c)) c0).1 x y
          = getPixel c x y) ∧
  (loadCanvasFromPNG (Image (exportCanvasToPNG c)) c0).2 = [LogLoaded].
Proof.
  intros Hvalid. cbn [loadCanvasFromPNG].
  assert (∀ x y, 0 <= x < CANVAS_SIZE → 0 <= y < CANVAS_SIZE →
            getPixel (onParsed (exportCanvasToPNG c) c0).1 x y = getPixel c x y)
    as Hcells.
  { intros x y Hx Hy. rewrite onParsed_cells by done.
    change (png_width (exportCanvasToPNG c)) with CANVAS_SIZE.
    change (png_height (exportCanvasToPNG c)) with CANVAS_SIZE.
    replace ((x <? Z.min CANVAS_SIZE CANVAS_SIZE) && (y <? Z.min CANVAS_SIZE CANVAS_SIZE))
      with true by lia.
    by apply quantized_exported. }
  split; [| split; [done |]].
  - intros i. destruct (decide (0 <= i < canvas_length)) as [Hi|Hi].
    + destruct (canvas_index_coords i Hi) as (Heq & Hx & Hy).
      specialize (Hcells _ _ Hx Hy). unfold getPixel in Hcells.
      by rewrite <- Heq in Hcells.
    + unfold u8_get. cbn [u8_length canvas_array]. by rewrite !decide_False.
  - rewrite onParsed_log.
    change (png_width (exportCanvasToPNG c)) with CANVAS_SIZE.
    change (png_height (exportCanvasToPNG c)) with CANVAS_SIZE.
    by rewrite decide_True.
Qed.

Lemma export_then_load_roundtrip_witness :
  getPixel (loadCanvasFromPNG
              (Image (exportCanvasToPNG (snd (setPixel canvas0 5 7 3)))) canvas0).1 5 7
  = Some 3.
Proof.
  pose proof (export_then_load_roundtrip (snd (setPixel canvas0 5 7 3)) canvas0
                (canvasValid_setPixel canvas0 5 7 3 canvasValid_empty)) as (_ & H & _).
  rewrite H by (unfold CANVAS_SIZE; lia).
  reflexivity.
Defined.

(** *** Saving and shutdown *)

Lemma saveStep_exclusive ev s : exclusive s → exclusive (saveStep ev s).
Proof.
  intros [Hone Hidle]. unfold saveStep.
  destruct (exited s); [done |].
  destruct ev as [| |[|] ok]; simpl.
  - unfold onSaveSnapshot. destruct (_isSaving s) eqn:E.
    + split; simpl; [lia | done].
    + specialize (Hidle eq_refl). split; simpl; [lia | done].
  - unfold saveAndExit. destruct (_isSaving s) eqn:E.
    + split; [done | congruence].
    + specialize (Hidle eq_refl). split; simpl; [lia | done].
  - destruct (manualPending s) as [|n] eqn:E.
    + split; [lia | by rewrite E].
    + split; simpl; lia.
  - destruct (shutdownPending s) as [|n] eqn:E.
    + split; [lia | by rewrite E].
    + split; simpl; [lia |]. intros Hs. specialize (Hidle Hs). lia.
Qed.

(** In every reachable state at most one export is in flight, and
    [_isSaving] is set while one is. *)
Lemma saveRun_exclusive evs : exclusive (saveRun evs saver0).
Proof.
  unfold saveRun.
  assert (exclusive saver0) as H0 by (split; simpl; [lia | done]).
  revert H0. generalize saver0.
  induction evs as [|ev evs IH]; intros s Hs; simpl; [done |].
  apply IH. by apply saveStep_exclusive.
Qed.

(** While an export is in flight, a save request is answered 409 and no
    export is started. *)
Lemma onSaveSnapshot_conflict s :
  _isSaving s = true →
  onSaveSnapshot s
  = mkSaver true (manualPending s) (shutdownPending s) (exited s) (responses s ++ [409]).
Proof. intros H. unfold onSaveSnapshot. by rewrite H. Qed.

(** While an export is in flight, [saveAndExit] returns at once: no
    export is started, and nothing is left that would exit. *)
Lemma saveAndExit_returns s : _isSaving s = true → saveAndExit s = s.
Proof. intros H. unfold saveAndExit. by rewrite H. Qed.

(** C9 at its failing input: a termination signal that arrives while a
    manual save is in flight changes nothing, and once that save has
    settled, no export is in flight, none was started by the shutdown
    path, and the process has not exited. *)
Theorem signal_during_manual_save_never_exits (ok : bool) :
  saveRun [PostSaveSnapshot; Signal] saver0 = saveRun [PostSaveSnapshot] saver0 ∧
  saveRun [PostSaveSnapshot; Signal; Settled Manual ok] saver0
  = mkSaver false 0 0 false [if ok then 200 else 500].
Proof. split; reflexivity. Qed.

(** ** Further properties of the canvas *)

Lemma setPixel_cases c x y k :
  (0 <= x < CANVAS_SIZE ∧ 0 <= y < CANVAS_SIZE ∧ 0 <= k < COLORS_length ∧
   setPixel c x y k = (true, <[getPixelIndex x y := to_uint8 k]> c)) ∨
  setPixel c x y k = (false, c).
Proof.
  destruct (decide (0 <= x < CANVAS_SIZE ∧ 0 <= y < CANVAS_SIZE ∧
                    0 <= k < COLORS_length)) as [(Hx & Hy & Hk)|Hbad].
  - left. by rewrite setPixel_accepts.
  - right. by apply setPixel_rejects.
Qed.

Lemma setPixel_frame c x y k x' y' :
  0 <= x' < CANVAS_SIZE → 0 <= y' < CANVAS_SIZE →
  (x', y') ≠ (x, y) →
  getPixel (snd (setPixel c x y k)) x' y' = getPixel c x' y'.
Proof.
  intros Hx' Hy' Hne.
  destruct (setPixel_cases c x y k) as [(Hx & Hy & Hk & ->)| ->]; [| done].
  cbn [snd]. apply getPixel_insert_ne. intros Heq.
  destruct (getPixelIndex_inj x y x' y' Hx Hx' Heq) as [-> ->]. done.
Qed.

Lemma setPixel_reads_back c x y k :
  0 <= x < CANVAS_SIZE → 0 <= y < CANVAS_SIZE → 0 <= k < 16 →
  getPixel (snd (setPixel c x y k)) x y = Some k.
Proof.
  intros Hx Hy Hk.
  rewrite setPixel_accepts by (rewrite ?COLORS_length_16; done). cbn [snd].
  rewrite getPixel_insert_eq by done.
  rewrite byte_val_to_uint8, Z.mod_small by lia. done.
Qed.

(** X1. Called with integer coordinates and an integer colour index,
    [setPixel] touches one cell only: whether it accepts or refuses,
    every other cell of the canvas reads as before. *)
Theorem setPixel_other_cells (c : Canvas) (x y k x' y' : Z) :
  0 <= x' < CANVAS_SIZE → 0 <= y' < CANVAS_SIZE →
  (x', y') ≠ (x, y) →
  getPixel (snd (setPixel c x y k)) x' y' = getPixel c x' y'.
Proof. apply setPixel_frame. Qed.

Lemma setPixel_other_cells_witness :
  getPixel (snd (setPixel (snd (setPixel canvas0 1 1 7)) 2 1 9)) 1 1
  = getPixel (snd (setPixel canvas0 1 1 7)) 1 1.
Proof.
  apply (setPixel_other_cells (snd (setPixel canvas0 1 1 7)) 2 1 9 1 1).
  - unfold CANVAS_SIZE. lia.
  - unfold CANVAS_SIZE. lia.
  - discriminate.
Defined.

(** X2. The last writer wins: an accepted [setPixel] makes the canvas
    forget whatever an earlier [setPixel] did to the same cell. *)
Theorem setPixel_overwrites (c : Canvas) (x y k1 k2 : Z) :
  0 <= x < CANVAS_SIZE → 0 <= y < CANVAS_SIZE → 0 <= k2 < 16 →
  snd (setPixel (snd (setPixel c x y k1)) x y k2) = snd (setPixel c x y k2).
Proof.
  intros Hx Hy Hk2.
  rewrite !(setPixel_accepts _ x y k2) by (rewrite ?COLORS_length_16; done).
  cbn [snd].
  destruct (setPixel_cases c x y k1) as [(_ & _ & _ & ->)| ->]; cbn [snd]; [| done].
  apply insert_insert_eq.
Qed.

Lemma setPixel_overwrites_witness :
  snd (setPixel (snd (setPixel canvas0 4 5 6)) 4 5 2) = snd (setPixel canvas0 4 5 2).
Proof.
  apply (setPixel_overwrites canvas0 4 5 6 2); unfold CANVAS_SIZE; lia.
Defined.

(** X3. Writes to different cells commute: the canvas after two
    [setPixel] calls with integer arguments on distinct cells does not
    depend on their order. *)
Theorem setPixel_commutes (c : Canvas) (x1 y1 k1 x2 y2 k2 : Z) :
  (x1, y1) ≠ (x2, y2) →
  snd (setPixel (snd (setPixel c x1 y1 k1)) x2 y2 k2)
  = snd (setPixel (snd (setPixel c x2 y2 k2)) x1 y1 k1).
Proof.
  intros Hne.
  destruct (decide (0 <= x1 < CANVAS_SIZE ∧ 0 <= y1 < CANVAS_SIZE ∧
                    0 <= k1 < COLORS_length)) as [(Hx1 & Hy1 & Hk1)|Hbad1];
  destruct (decide (0 <= x2 < CANVAS_SIZE ∧ 0 <= y2 < CANVAS_SIZE ∧
                    0 <= k2 < COLORS_length)) as [(Hx2 & Hy2 & Hk2)|Hbad2].
  - rewrite !(setPixel_accepts _ x1 y1 k1), !(setPixel_accepts _ x2 y2 k2) by done.
    cbn [snd]. apply insert_insert_ne. intros Heq.
    destruct (getPixelIndex_inj x1 y1 x2 y2 Hx1 Hx2) as [-> ->]; done.
  - by rewrite !(setPixel_rejects _ x2 y2 k2).
  - by rewrite !(setPixel_rejects _ x1 y1 k1).
  - by rewrite !(setPixel_rejects _ x1 y1 k1), !(setPixel_rejects _ x2 y2 k2).
Qed.

Lemma setPixel_commutes_witness :
  snd (setPixel (snd (setPixel canvas0 0 0 1)) 1999 1999 15)
  = snd (setPixel (snd (setPixel canvas0 1999 1999 15)) 0 0 1).
Proof.
  apply (setPixel_commutes canvas0 0 0 1 1999 1999 15). discriminate.
Defined.

(** ** Further properties of regions *)

(** X4. A rectangle with a non-positive side (integer arguments). The
    call returns a buffer exactly when the area [width * height] is
    non-negative, within what the engine can allocate and at most
    2^53 - 1, and [height] is at most 2^53; the buffer is then the
    freshly allocated one, [width * height] zeros never written to (so a
    -2 x -3 request yields six zeros). Otherwise nothing is returned:
    the allocation raises [RangeError], or, for a zero width and a
    height above 2^53, the row counter stops growing and the loop never
    ends. *)
Theorem getRegion_degenerate (maxLength : Z) (c : Canvas) (x y width height : Z) :
  width <= 0 ∨ height <= 0 →
  getRegionOn maxLength c x y width height =
  if decide (0 <= width * height ∧ width * height <= maxLength ∧
             width * height <= MAX_SAFE_INTEGER ∧ height <= MAX_SAFE_INTEGER + 1)
  then Some (u8_new (width * height)) else None.
Proof.
  intros Hside. unfold getRegionOn.
  destruct (decide (0 <= width * height ∧ width * height <= maxLength ∧
                    width * height <= MAX_SAFE_INTEGER ∧
                    height <= MAX_SAFE_INTEGER + 1)) as [(Ha & Hf & Hs & Ht)|Hbad].
  - rewrite getRegionEnding_returns by done. f_equal.
    destruct (decide (height <= 0)) as [Hh|Hh].
    + by rewrite for_upto_nonpos.
    + assert (width <= 0) as Hw by lia.
      apply (for_upto_invariant (λ _ r, r = u8_new (width * height))); [lia | done |].
      intros dy r _ ->. by rewrite for_upto_nonpos.
  - unfold getRegionEnding.
    destruct ((width * height <? 0) ||
              (Z.min maxLength MAX_SAFE_INTEGER <? width * height)) eqn:Hrange;
      [done |].
    destruct (MAX_SAFE_INTEGER + 1 <? height) eqn:Htall; [done |].
    exfalso. apply Hbad. lia.
Qed.

Lemma getRegion_degenerate_witness :
  getRegionOn 4000000 (snd (setPixel canvas0 0 0 3)) 0 0 (-2) (-3) = Some (u8_new 6) ∧
  getRegionOn 4000000 (snd (setPixel canvas0 0 0 3)) 0 0 (-2) 3 = None ∧
  getRegionOn 4000000 (snd (setPixel canvas0 0 0 3)) 0 0 0 (2 ^ 54) = None.
Proof.
  split; [| split].
  - apply (getRegion_degenerate 4000000 (snd (setPixel canvas0 0 0 3)) 0 0 (-2) (-3)). lia.
  - apply (getRegion_degenerate 4000000 (snd (setPixel canvas0 0 0 3)) 0 0 (-2) 3). lia.
  - apply (getRegion_degenerate 4000000 (snd (setPixel canvas0 0 0 3)) 0 0 0 (2 ^ 54)). lia.
Defined.

Lemma getRegion_at maxLength c x y width height :
  0 <= width → 0 <= height →
  width * height <= maxLength → width * height <= MAX_SAFE_INTEGER →
  height <= MAX_SAFE_INTEGER + 1 →
  ∃ region,
    getRegionOn maxLength c x y width height = Some region ∧
    u8_length region = width * height ∧
    ∀ dx dy, 0 <= dx < width → 0 <= dy < height →
      u8_get region (dy * width + dx) = regionCell c x y dx dy.
Proof.
  intros Hw Hh Hfits Hsafe Htall.
  assert (getRegionEnding maxLength width height = Returns) as Hret
    by (apply getRegionEnding_returns; [nia | done..]).
  destruct (getRegion_filled c x y width height Hw Hh maxLength Hret)
    as (region & Hreg & Hlen & Hcells).
  exists region. split; [done |]. split; [done |].
  intros dx dy Hdx Hdy. rewrite Hcells by done.
  by replace ((dy <? height) || ((dy =? height) && (dx <? 0))) with true by lia.
Qed.

(** X5. The region anchored at the origin with the canvas's own
    dimensions is a copy of the canvas: same length, same byte at every
    index. *)
Theorem getRegion_whole_canvas (c : Canvas) :
  ∃ region,
    getRegion c 0 0 CANVAS_SIZE CANVAS_SIZE = Some region ∧
    u8_length region = u8_length (canvas_array c) ∧
    ∀ i, u8_get region i = u8_get (canvas_array c) i.
Proof.
  destruct (getRegion_at MAX_SAFE_INTEGER c 0 0 CANVAS_SIZE CANVAS_SIZE)
    as (region & Hreg & Hlen & Hcells); [done.. |].
  exists region. split; [exact Hreg |]. split; [done |].
  intros i. destruct (decide (0 <= i < canvas_length)) as [Hi|Hi].
  - destruct (canvas_index_coords i Hi) as (Heq & Hx & Hy).
    specialize (Hcells _ _ Hx Hy). unfold regionCell in Hcells.
    rewrite !Z.add_0_l in Hcells.
    assert (inCanvas (i mod CANVAS_SIZE) (i / CANVAS_SIZE) = true) as Hin
      by (apply inCanvas_spec; exact (conj Hx Hy)).
    rewrite Hin in Hcells.
    unfold getPixel in Hcells. rewrite <- Heq in Hcells.
    rewrite <- Hcells. f_equal. exact Heq.
  - unfold u8_get. rewrite Hlen. cbn [u8_length canvas_array].
    fold canvas_length. by rewrite !decide_False.
Qed.

(** X6. A region read after an accepted [setPixel] differs from the one
    read before exactly at the position of the pixel set, where it holds
    the new colour index. (Integer arguments; the rectangle is one whose
    area the engine can allocate, at most 2^53 - 1, with a height of at
    most 2^53, so that both reads return.) *)
Theorem getRegion_after_setPixel
    (maxLength : Z) (c : Canvas) (px py k x y width height : Z) :
  0 <= px < CANVAS_SIZE → 0 <= py < CANVAS_SIZE → 0 <= k < 16 →
  0 <= width → 0 <= height →
  width * height <= maxLength → width * height <= MAX_SAFE_INTEGER →
  height <= MAX_SAFE_INTEGER + 1 →
  ∃ before after,
    getRegionOn maxLength c x y width height = Some before ∧
    getRegionOn maxLength (snd (setPixel c px py k)) x y width height = Some after ∧
    ∀ dx dy, 0 <= dx < width → 0 <= dy < height →
      u8_get after (dy * width + dx) =
      if decide (x + dx = px ∧ y + dy = py) then Some k
      else u8_get before (dy * width + dx).
Proof.
  intros Hpx Hpy Hk Hw Hh Hfits Hsafe Htall.
  destruct (getRegion_at maxLength c x y width height Hw Hh Hfits Hsafe Htall)
    as (before & Hb & _ & Hbc).
  destruct (getRegion_at maxLength (snd (setPixel c px py k)) x y width height
              Hw Hh Hfits Hsafe Htall)
    as (after & Ha & _ & Hac).
  exists before, after. split; [done |]. split; [done |].
  intros dx dy Hdx Hdy. rewrite Hac, Hbc by done. unfold regionCell.
  destruct (decide (x + dx = px ∧ y + dy = py)) as [[<- <-]|Hne].
  - assert (inCanvas (x + dx) (y + dy) = true) as -> by (by apply inCanvas_spec).
    by apply setPixel_reads_back.
  - destruct (inCanvas (x + dx) (y + dy)) eqn:Hin; [| done].
    apply inCanvas_spec in Hin as [Hx Hy].
    apply setPixel_frame; [done | done |].
    intros [= ? ?]. by apply Hne.
Qed.

Lemma getRegion_after_setPixel_witness :
  ∃ before after,
    getRegionOn 4000000 canvas0 9 9 3 3 = Some before ∧
    getRegionOn 4000000 (snd (setPixel canvas0 10 10 5)) 9 9 3 3 = Some after ∧
    u8_get after 4 = Some 5 ∧ u8_get after 5 = u8_get before 5.
Proof.
  destruct (getRegion_after_setPixel 4000000 canvas0 10 10 5 9 9 3 3)
    as (before & after & Hb & Ha & Hcells);
    [unfold CANVAS_SIZE; lia | unfold CANVAS_SIZE; lia | lia | lia | lia | lia
    | unfold MAX_SAFE_INTEGER; lia | unfold MAX_SAFE_INTEGER; lia |].
  exists before, after. split; [exact Hb |]. split; [exact Ha |].
  split.
  - apply (Hcells 1 1); lia.
  - apply (Hcells 2 1); lia.
Defined.

(** ** Further properties of the cooldown *)

(** X7. Eligibility is monotone in time: a user who may draw at [t] may
    draw at every later time, as long as no new draw is recorded. *)
Theorem canUserDraw_monotone (cooldowns : gmap string Z) (userId : string) (t t' : Z) :
  t <= t' →
  canUserDraw cooldowns userId t = true →
  canUserDraw cooldowns userId t' = true.
Proof.
  intros Hle. destruct (cooldowns !! userId) as [ts|] eqn:E.
  - rewrite !(canUserDraw_present _ _ _ _ E). lia.
  - by rewrite !canUserDraw_absent.
Qed.

Lemma canUserDraw_monotone_witness :
  canUserDraw (<["u"%string := 1000]> ∅) "u"%string 9000 = true.
Proof.
  apply (canUserDraw_monotone (<["u"%string := 1000]> ∅) "u"%string 6000 9000).
  - lia.
  - reflexivity.
Defined.

(** X8. A later sweep subsumes an earlier one: sweeping at [now] and then
    at [now' >= now] leaves the same records as sweeping at [now'] alone;
    in particular sweeping twice at the same time changes nothing more. *)
Theorem sweepCooldowns_twice (cooldowns : gmap string Z) (now now' : Z) :
  now <= now' →
  sweepCooldowns (sweepCooldowns cooldowns now) now' = sweepCooldowns cooldowns now'.
Proof.
  intros Hle. apply map_eq. intros userId.
  rewrite !sweepCooldowns_lookup.
  destruct (cooldowns !! userId) as [ts|]; [| done].
  destruct (decide (now - ts > COOLDOWN_MS * 10)) as [Hold|Hnew].
  - rewrite decide_True by lia. done.
  - done.
Qed.

Lemma sweepCooldowns_twice_witness :
  sweepCooldowns (sweepCooldowns (<["u"%string := 1000]> (<["v"%string := 40000]> ∅))
                                 60000) 95000
  = sweepCooldowns (<["u"%string := 1000]> (<["v"%string := 40000]> ∅)) 95000.
Proof.
  apply (sweepCooldowns_twice _ 60000 95000). lia.
Defined.

(** ** Further properties of the palette scan *)

Lemma sqDist_undefined r g b p :
  r = None ∨ g = None ∨ b = None → sqDist r g b p = None.
Proof.
  destruct p as [[pr pg] pb]. unfold sqDist, num_op.
  intros [-> | [-> | ->]]; repeat case_match; done.
Qed.

Lemma scanPalette_all_NaN pal i r g b bestIndex bestDist :
  (∀ p, sqDist r g b p = None) →
  scanPalette pal i r g b bestIndex bestDist = bestIndex.
Proof.
  intros Hnan. revert i. induction pal as [|p pal IH]; intros i; simpl; [done |].
  rewrite Hnan. simpl. apply IH.
Qed.

Lemma nearestColor_NaN r g b :
  r = None ∨ g = None ∨ b = None → nearestColor r g b = 0.
Proof.
  intros Hundef. unfold nearestColor. apply scanPalette_all_NaN.
  intros p. by apply sqDist_undefined.
Qed.

Lemma paletteTriples_eq :
  paletteTriples =
  [ (255, 255, 255); (228, 228, 228); (136, 136, 136); (34, 34, 34);
    (255, 167, 209); (229, 0, 0); (229, 149, 0); (160, 106, 66);
    (229, 217, 0); (148, 224, 68); (2, 190, 1); (0, 211, 221);
    (0, 131, 199); (0, 0, 234); (207, 110, 228); (130, 0, 128) ].
Proof. reflexivity. Qed.

Lemma nearestColor_palette_entry (k : nat) (r g b : Z) :
  paletteTriples !! k = Some (r, g, b) →
  nearestColor (Some r) (Some g) (Some b) = Z.of_nat k.
Proof.
  rewrite paletteTriples_eq.
  do 16 (destruct k as [|k]; [intros [= <- <- <-]; by vm_compute |]).
  done.
Qed.

(** ** Further properties of snapshot loading *)

Lemma canvas_cells_ext (c1 c2 : Canvas) :
  (∀ x y, 0 <= x < CANVAS_SIZE → 0 <= y < CANVAS_SIZE →
          getPixel c1 x y = getPixel c2 x y) →
  ∀ i, u8_get (canvas_array c1) i = u8_get (canvas_array c2) i.
Proof.
  intros Hcells i. destruct (decide (0 <= i < canvas_length)) as [Hi|Hi].
  - destruct (canvas_index_coords i Hi) as (Heq & Hx & Hy).
    specialize (Hcells _ _ Hx Hy). unfold getPixel in Hcells.
    by rewrite <- Heq in Hcells.
  - unfold u8_get. cbn [u8_length canvas_array]. by rewrite !decide_False.
Qed.

(** X9. A pixel of the overlap whose bytes lie outside the image buffer
    (a truncated buffer, or a wrapped offset) is loaded as index 0,
    whatever the canvas cell held. *)
Theorem onParsed_pixel_outside_buffer (this : PNG) (c : Canvas) (x y : Z) :
  0 <= x < Z.min (png_width this) CANVAS_SIZE →
  0 <= y < Z.min (png_height this) CANVAS_SIZE →
  u8_get (png_data this) (shl32 (y * png_width this + x) 2) = None ∨
  u8_get (png_data this) (shl32 (y * png_width this + x) 2 + 1) = None ∨
  u8_get (png_data this) (shl32 (y * png_width this + x) 2 + 2) = None →
  getPixel (onParsed this c).1 x y = Some 0.
Proof.
  intros Hx Hy Hundef. rewrite onParsed_cells by lia.
  replace ((x <? Z.min (png_width this) CANVAS_SIZE) &&
           (y <? Z.min (png_height this) CANVAS_SIZE)) with true by lia.
  f_equal. unfold quantized. cbv zeta. by apply nearestColor_NaN.
Qed.

Lemma onParsed_pixel_outside_buffer_witness :
  getPixel (onParsed truncatedImage (snd (setPixel canvas0 1 0 9))).1 1 0 = Some 0.
Proof.
  apply (onParsed_pixel_outside_buffer truncatedImage _ 1 0).
  - unfold truncatedImage, CANVAS_SIZE. simpl. lia.
  - unfold truncatedImage, CANVAS_SIZE. simpl. lia.
  - left. reflexivity.
Defined.

(** X10. Loading is idempotent: running the ['parsed'] handler a second
    time on the same image leaves every canvas cell as the first run
    set it. *)
Theorem onParsed_idempotent (this : PNG) (c : Canvas) (i : Z) :
  u8_get (canvas_array (onParsed this (onParsed this c).1).1) i
  = u8_get (canvas_array (onParsed this c).1) i.
Proof.
  revert i. apply canvas_cells_ext. intros x y Hx Hy.
  rewrite (onParsed_cells this (onParsed this c).1) by done.
  rewrite (onParsed_cells this c) by done.
  by destruct ((x <? Z.min (png_width this) CANVAS_SIZE) &&
               (y <? Z.min (png_height this) CANVAS_SIZE)).
Qed.

(** X11. Loading keeps the canvas invariant: whatever bytes the image
    holds, a canvas whose cells are palette indices still is one after
    the ['parsed'] handler. *)
Theorem onParsed_keeps_valid (this : PNG) (c : Canvas) :
  canvasValid c → canvasValid (onParsed this c).1.
Proof.
  intros Hvalid i v Hv.
  destruct (decide (0 <= i < canvas_length)) as [Hi|Hi].
  - destruct (canvas_index_coords i Hi) as (Heq & Hx & Hy).
    pose proof (onParsed_cells this c _ _ Hx Hy) as Hcell.
    unfold getPixel in Hcell. rewrite <- Heq in Hcell. rewrite Hv in Hcell.
    destruct ((i mod CANVAS_SIZE <? Z.min (png_width this) CANVAS_SIZE) &&
              (i / CANVAS_SIZE <? Z.min (png_height this) CANVAS_SIZE)).
    + injection Hcell as ->. apply quantized_range.
    + symmetry in Hcell. by apply (Hvalid i).
  - unfold u8_get in Hv. cbn [u8_length canvas_array] in Hv.
    by rewrite decide_False in Hv.
Qed.

Lemma onParsed_keeps_valid_witness :
  canvasValid (onParsed wideImage (snd (setPixel canvas0 3 3 3))).1.
Proof.
  apply (onParsed_keeps_valid wideImage).
  apply canvasValid_setPixel, canvasValid_empty.
Defined.

(** X12. An image at least as large as the canvas overwrites all of it:
    the canvas after the ['parsed'] handler does not depend on the canvas
    before, so pixels drawn before the snapshot finished loading are
    lost. *)
Theorem onParsed_full_size_overwrites (this : PNG) (c1 c2 : Canvas) (i : Z) :
  CANVAS_SIZE <= png_width this → CANVAS_SIZE <= png_height this →
  u8_get (canvas_array (onParsed this c1).1) i
  = u8_get (canvas_array (onParsed this c2).1) i.
Proof.
  intros Hw Hh. revert i. apply canvas_cells_ext. intros x y Hx Hy.
  rewrite !onParsed_cells by done.
  by replace ((x <? Z.min (png_width this) CANVAS_SIZE) &&
              (y <? Z.min (png_height this) CANVAS_SIZE)) with true by lia.
Qed.

Lemma onParsed_full_size_overwrites_witness :
  u8_get (canvas_array (onParsed (exportCanvasToPNG canvas0)
                                 (snd (setPixel canvas0 8 8 8))).1) 16008
  = u8_get (canvas_array (onParsed (exportCanvasToPNG canvas0) canvas0).1) 16008.
Proof.
  apply (onParsed_full_size_overwrites (exportCanvasToPNG canvas0)).
  - change (png_width (exportCanvasToPNG canvas0)) with CANVAS_SIZE. lia.
  - change (png_height (exportCanvasToPNG canvas0)) with CANVAS_SIZE. lia.
Defined.

(** ** Further properties of snapshot export *)

Lemma exportCell_opaque c i data :
  0 <= i < canvas_length →
  opaqueUpTo i data → opaqueUpTo (i + 1) (exportCell c i data).
Proof.
  intros Hi [Hlen Hcells]. unfold exportCell. cbv zeta.
  assert (canvas_length = 4000000) as Hcl by reflexivity.
  assert (4 * CANVAS_SIZE * CANVAS_SIZE = 16000000) as Hdl by reflexivity.
  rewrite shl32_small by lia.
  split; [by rewrite !u8_length_set |].
  intros j Hj.
  destruct (decide (j = i)) as [->|Hne].
  - by rewrite u8_get_set_eq by (rewrite ?u8_length_set; lia).
  - rewrite !u8_get_set_ne by lia. apply Hcells. lia.
Qed.

Lemma exportCanvasToPNG_opaque c :
  opaqueUpTo canvas_length (png_data (exportCanvasToPNG c)).
Proof.
  rewrite exportCanvasToPNG_unfold. cbn [png_data].
  apply (for_upto_invariant opaqueUpTo).
  - done.
  - split; [done |]. intros j Hj. lia.
  - intros i data Hi Hdata. by apply exportCell_opaque.
Qed.

Lemma COLORS_lookup_ge k : 16 <= k → COLORS !! Z.to_nat k = None.
Proof. intros Hk. apply lookup_ge_None. simpl. lia. Qed.

Lemma stored_exportedRGB k :
  0 <= k →
  ∃ r g b,
    renderedColor k = (r, g, b) ∧
    stored (exportedRGB (Some k)).1.1 = Some r ∧
    stored (exportedRGB (Some k)).1.2 = Some g ∧
    stored (exportedRGB (Some k)).2 = Some b.
Proof.
  intros Hk0. destruct (decide (k < 16)) as [Hk|Hk].
  - assert (k = 0 ∨ k = 1 ∨ k = 2 ∨ k = 3 ∨ k = 4 ∨ k = 5 ∨ k = 6 ∨ k = 7 ∨
            k = 8 ∨ k = 9 ∨ k = 10 ∨ k = 11 ∨ k = 12 ∨ k = 13 ∨ k = 14 ∨ k = 15)
      as Hcases by lia.
    repeat (destruct Hcases as [->|Hcases];
            [do 3 eexists; repeat split; vm_compute; reflexivity |]).
    subst k. do 3 eexists; repeat split; vm_compute; reflexivity.
  - exists 0, 0, 0. split.
    + unfold renderedColor.
      by rewrite (lookup_ge_None_2 paletteTriples)
        by (rewrite paletteTriples_length; lia).
    + unfold exportedRGB. cbn [mbind option_bind].
      rewrite COLORS_lookup_ge by lia. by vm_compute.
Qed.

Lemma exportCanvasToPNG_rgb c i :
  0 <= i < canvas_length →
  ∃ k r g b,
    u8_get (canvas_array c) i = Some k ∧ renderedColor k = (r, g, b) ∧
    u8_get (png_data (exportCanvasToPNG c)) (4 * i) = Some r ∧
    u8_get (png_data (exportCanvasToPNG c)) (4 * i + 1) = Some g ∧
    u8_get (png_data (exportCanvasToPNG c)) (4 * i + 2) = Some b.
Proof.
  intros Hi.
  destruct (exportCanvasToPNG_rendered c) as [_ Hrgb].
  destruct (u8_get_defined (canvas_array c) i Hi) as [k Hk].
  destruct (Hrgb i Hi) as (Hr & Hg & Hb). rewrite Hk in Hr, Hg, Hb.
  destruct (stored_exportedRGB k ltac:(by eapply u8_get_range))
    as (r & g & b & Hc & Hr' & Hg' & Hb').
  exists k, r, g, b. split; [done |]. split; [done |].
  by rewrite Hr, Hg, Hb, Hr', Hg', Hb'.
Qed.

(** X13. The image [exportCanvasToPNG] renders has the canvas's
    dimensions and four bytes per cell: the cell's palette colour, or
    black when the cell holds no palette index, followed by an opaque
    alpha of 255. *)
Theorem exportCanvasToPNG_pixels (c : Canvas) (i : Z) :
  0 <= i < CANVAS_SIZE * CANVAS_SIZE →
  png_width (exportCanvasToPNG c) = CANVAS_SIZE ∧
  png_height (exportCanvasToPNG c) = CANVAS_SIZE ∧
  u8_length (png_data (exportCanvasToPNG c)) = 4 * CANVAS_SIZE * CANVAS_SIZE ∧
  ∃ k, u8_get (canvas_array c) i = Some k ∧
       (u8_get (png_data (exportCanvasToPNG c)) (4 * i),
        u8_get (png_data (exportCanvasToPNG c)) (4 * i + 1),
        u8_get (png_data (exportCanvasToPNG c)) (4 * i + 2))
       = lift (renderedColor k) ∧
       u8_get (png_data (exportCanvasToPNG c)) (4 * i + 3) = Some 255.
Proof.
  intros Hi. fold canvas_length in Hi.
  split; [reflexivity |]. split; [reflexivity |].
  destruct (exportCanvasToPNG_rendered c) as [Hlen _].
  destruct (exportCanvasToPNG_opaque c) as [_ Halpha].
  split; [done |].
  destruct (exportCanvasToPNG_rgb c i Hi) as (k & r & g & b & Hk & Hc & Hr & Hg & Hb).
  exists k. split; [done |].
  rewrite Hr, Hg, Hb, Hc. split; [done | by apply Halpha].
Qed.

Lemma exportCanvasToPNG_pixels_witness :
  ∃ k, u8_get (canvas_array (snd (setPixel canvas0 1 0 5))) 1 = Some k ∧
       (u8_get (png_data (exportCanvasToPNG (snd (setPixel canvas0 1 0 5)))) (4 * 1),
        u8_get (png_data (exportCanvasToPNG (snd (setPixel canvas0 1 0 5)))) (4 * 1 + 1),
        u8_get (png_data (exportCanvasToPNG (snd (setPixel canvas0 1 0 5)))) (4 * 1 + 2))
       = lift (renderedColor k) ∧
       u8_get (png_data (exportCanvasToPNG (snd (setPixel canvas0 1 0 5)))) (4 * 1 + 3)
       = Some 255.
Proof.
  apply (exportCanvasToPNG_pixels (snd (setPixel canvas0 1 0 5)) 1).
  unfold CANVAS_SIZE. lia.
Defined.

Lemma nearestColor_rendered k :
  0 <= k →
  (let '(r, g, b) := renderedColor k in nearestColor (Some r) (Some g) (Some b))
  = if k <? 16 then k else 3.
Proof.
  intros Hk0. unfold renderedColor.
  destruct (paletteTriples !! Z.to_nat k) as [[[r g] b]|] eqn:E;
    cbn [default from_option id]; cbv beta iota.
  - rewrite (nearestColor_palette_entry _ _ _ _ E).
    apply lookup_lt_Some in E. rewrite paletteTriples_length in E.
    replace (k <? 16) with true by lia. lia.
  - apply lookup_ge_None in E. rewrite paletteTriples_length in E.
    replace (k <? 16) with false by lia. by vm_compute.
Qed.

(** X14. Exporting any canvas and loading the image back keeps every cell
    that holds a palette index and turns every other cell into index 3,
    the palette colour nearest to the black it was rendered as. *)
Theorem export_then_load_any_canvas (c c0 : Canvas) (x y : Z) :
  0 <= x < CANVAS_SIZE → 0 <= y < CANVAS_SIZE →
  getPixel (onParsed (exportCanvasToPNG c) c0).1 x y
  = (λ k, if k <? 16 then k else 3) <$> getPixel c x y.
Proof.
  intros Hx Hy. rewrite onParsed_cells by done.
  change (png_width (exportCanvasToPNG c)) with CANVAS_SIZE.
  change (png_height (exportCanvasToPNG c)) with CANVAS_SIZE.
  replace ((x <? Z.min CANVAS_SIZE CANVAS_SIZE) && (y <? Z.min CANVAS_SIZE CANVAS_SIZE))
    with true by lia.
  pose proof (getPixelIndex_range x y Hx Hy) as Hidx.
  assert (canvas_length = 4000000) as Hcl by reflexivity.
  destruct (exportCanvasToPNG_rgb c (getPixelIndex x y) Hidx)
    as (k & r & g & b & Hk & Hc & Hr & Hg & Hb).
  pose proof (nearestColor_rendered k ltac:(by eapply u8_get_range)) as Hn.
  rewrite Hc in Hn.
  unfold getPixel. rewrite Hk. cbn [fmap option_fmap option_map]. f_equal.
  unfold quantized. cbv zeta.
  change (png_width (exportCanvasToPNG c)) with CANVAS_SIZE.
  fold (getPixelIndex x y).
  rewrite shl32_small by lia.
  rewrite Hr, Hg, Hb. exact Hn.
Qed.

Lemma export_then_load_any_canvas_witness :
  getPixel (onParsed (exportCanvasToPNG (<[getPixelIndex 2 0 := "200"%byte]> canvas0))
                     canvas0).1 2 0
  = (λ k, if k <? 16 then k else 3)
      <$> getPixel (<[getPixelIndex 2 0 := "200"%byte]> canvas0) 2 0.
Proof.
  apply (export_then_load_any_canvas _ canvas0 2 0); unfold CANVAS_SIZE; lia.
Defined.

(** ** Further properties of the draw handler *)

Lemma setPixel_true_valid c x y k :
  fst (setPixel c x y k) = true →
  0 <= x < CANVAS_SIZE ∧ 0 <= y < CANVAS_SIZE ∧ 0 <= k < 16.
Proof.
  destruct (setPixel_cases c x y k) as [(Hx & Hy & Hk & _)| ->]; [| done].
  rewrite COLORS_length_16 in Hk. done.
Qed.

Lemma onDrawPixel_decided userId x y color now1 now2 now3 s :
  onDrawPixel userId x y color now1 now2 now3 s =
  if canUserDraw (userCooldowns s) userId now1
  then if fst (setPixel (canvas s) x y color)
       then (mkServer (snd (setPixel (canvas s) x y color))
                      (<[userId := now2]> (userCooldowns s))
                      (pendingUpdates s ++ [mkUpdate x y color]),
             [DrawSuccess (now3 + COOLDOWN_MS)])
       else (s, [])
  else (s, [CooldownReply
              (num_op Z.sub (Some COOLDOWN_MS)
                      (num_op Z.sub (Some now2) (userCooldowns s !! userId)))]).
Proof.
  unfold onDrawPixel.
  destruct (canUserDraw (userCooldowns s) userId now1); [| done]. simpl.
  by destruct (setPixel (canvas s) x y color) as [[|] c'].
Qed.

(** X15. A draw request whose [x], [y] and [color] fields are integers
    touches only its own user and its own cell: the cooldown records of
    other users, the other cells of the canvas and the updates already
    pending are as before, and at most the request's own update is
    appended. *)
Theorem onDrawPixel_touches_only_its_own
    (userId : string) (x y color now1 now2 now3 : Z) (s : Server)
    (v : string) (x' y' : Z) :
  v ≠ userId →
  0 <= x' < CANVAS_SIZE → 0 <= y' < CANVAS_SIZE → (x', y') ≠ (x, y) →
  userCooldowns (onDrawPixel userId x y color now1 now2 now3 s).1 !! v
    = userCooldowns s !! v ∧
  getPixel (canvas (onDrawPixel userId x y color now1 now2 now3 s).1) x' y'
    = getPixel (canvas s) x' y' ∧
  (pendingUpdates (onDrawPixel userId x y color now1 now2 now3 s).1 = pendingUpdates s ∨
   pendingUpdates (onDrawPixel userId x y color now1 now2 now3 s).1
     = pendingUpdates s ++ [mkUpdate x y color]).
Proof.
  intros Hv Hx' Hy' Hne. rewrite onDrawPixel_decided.
  destruct (canUserDraw (userCooldowns s) userId now1); [| by auto].
  destruct (fst (setPixel (canvas s) x y color)); [| by auto].
  cbn [fst canvas userCooldowns pendingUpdates].
  split; [by apply lookup_insert_ne |].
  split; [by apply setPixel_frame | by right].
Qed.

Lemma onDrawPixel_touches_only_its_own_witness :
  userCooldowns (onDrawPixel "u"%string 5 5 3 1000 1000 1000 server0).1 !! "v"%string
    = userCooldowns server0 !! "v"%string ∧
  getPixel (canvas (onDrawPixel "u"%string 5 5 3 1000 1000 1000 server0).1) 6 5
    = getPixel (canvas server0) 6 5 ∧
  (pendingUpdates (onDrawPixel "u"%string 5 5 3 1000 1000 1000 server0).1
     = pendingUpdates server0 ∨
   pendingUpdates (onDrawPixel "u"%string 5 5 3 1000 1000 1000 server0).1
     = pendingUpdates server0 ++ [mkUpdate 5 5 3]).
Proof.
  apply (onDrawPixel_touches_only_its_own "u"%string 5 5 3 1000 1000 1000 server0
           "v"%string 6 5).
  - discriminate.
  - unfold CANVAS_SIZE. lia.
  - unfold CANVAS_SIZE. lia.
  - discriminate.
Defined.

(** *** Runs of draw requests and ticks *)

Lemma step_draw userId x y color now1 now2 now3 s tr :
  step (EvDraw userId x y color now1 now2 now3) (s, tr) =
  if canUserDraw (userCooldowns s) userId now1 && fst (setPixel (canvas s) x y color)
  then (mkServer (snd (setPixel (canvas s) x y color))
                 (<[userId := now2]> (userCooldowns s))
                 (pendingUpdates s ++ [mkUpdate x y color]),
        mkTrace (batches tr) (accepted tr ++ [mkUpdate x y color]))
  else (s, tr).
Proof.
  cbn [step]. rewrite onDrawPixel_decided.
  destruct (canUserDraw (userCooldowns s) userId now1); [| done].
  by destruct (fst (setPixel (canvas s) x y color)).
Qed.

Lemma step_tick s tr :
  step EvTick (s, tr) =
  match pendingUpdates s with
  | [] => (s, tr)
  | _ :: _ => (mkServer (canvas s) (userCooldowns s) [],
               mkTrace (batches tr ++ [pendingUpdates s]) (accepted tr))
  end.
Proof. cbn [step]. rewrite broadcastTick_cases. by destruct (pendingUpdates s). Qed.

Lemma fold_step_invariant (P : Server * Trace → Prop) evs st :
  P st → (∀ ev st, P st → P (step ev st)) →
  P (fold_left (λ st ev, step ev st) evs st).
Proof.
  intros H0 Hstep. revert st H0.
  induction evs as [|ev evs IH]; intros st Hst; simpl; [done |].
  apply IH. by apply Hstep.
Qed.

Lemma step_keeps_cooldown userId ev st :
  notBy userId ev →
  userCooldowns (step ev st).1 !! userId = userCooldowns st.1 !! userId.
Proof.
  destruct st as [s tr]. destruct ev as [v x y color now1 now2 now3|]; intros Hv.
  - rewrite step_draw.
    destruct (canUserDraw (userCooldowns s) v now1 && fst (setPixel (canvas s) x y color));
      [| done].
    simpl in *. by apply lookup_insert_ne.
  - rewrite step_tick. by destruct (pendingUpdates s).
Qed.

Lemma fold_keeps_cooldown userId evs st :
  Forall (notBy userId) evs →
  userCooldowns (fold_left (λ st ev, step ev st) evs st).1 !! userId
  = userCooldowns st.1 !! userId.
Proof.
  intros Hevs. revert st.
  induction Hevs as [|ev evs Hev _ IH]; intros st; simpl; [done |].
  rewrite IH. by apply step_keeps_cooldown.
Qed.

(** X16. Nobody else can shorten a user's cooldown: after any run of
    other users' draw requests and broadcast ticks, a user whose last
    draw was recorded at a non-zero reading [t] is still refused while
    [now1 - t < COOLDOWN_MS], with the state left as it was. *)
Theorem cooldown_survives_other_users
    (userId : string) (t : Z) (evs : list Event) (s : Server)
    (x y color now1 now2 now3 : Z) :
  userCooldowns s !! userId = Some t → t ≠ 0 →
  Forall (notBy userId) evs →
  now1 - t < COOLDOWN_MS →
  onDrawPixel userId x y color now1 now2 now3 (run evs s).1
  = ((run evs s).1, [CooldownReply (Some (COOLDOWN_MS - (now2 - t)))]).
Proof.
  intros Ht Hnz Hevs Hwin.
  assert (userCooldowns (run evs s).1 !! userId = Some t) as Ht'.
  { unfold run. by rewrite fold_keeps_cooldown. }
  rewrite onDrawPixel_decided.
  rewrite (canUserDraw_present _ _ _ _ Ht'), Ht'.
  replace ((t =? 0) || (now1 - t >=? COOLDOWN_MS)) with false by lia.
  reflexivity.
Qed.

Lemma cooldown_survives_other_users_witness :
  onDrawPixel "u"%string 1 1 1 5999 5999 5999
    (run [EvDraw "v"%string 2 2 2 3000 3000 3000; EvTick]
         (onDrawPixel "u"%string 5 5 3 1000 1000 1000 server0).1).1
  = ((run [EvDraw "v"%string 2 2 2 3000 3000 3000; EvTick]
          (onDrawPixel "u"%string 5 5 3 1000 1000 1000 server0).1).1,
     [CooldownReply (Some (COOLDOWN_MS - (5999 - 1000)))]).
Proof.
  apply (cooldown_survives_other_users "u"%string 1000).
  - reflexivity.
  - lia.
  - repeat constructor. discriminate.
  - unfold COOLDOWN_MS. lia.
Defined.

Lemma step_accepted_valid ev st :
  Forall validUpdate (accepted st.2) → Forall validUpdate (accepted (step ev st).2).
Proof.
  destruct st as [s tr]. destruct ev as [v x y color now1 now2 now3|]; intros Hacc.
  - rewrite step_draw.
    destruct (canUserDraw (userCooldowns s) v now1); [| done].
    destruct (fst (setPixel (canvas s) x y color)) eqn:Hset; [| done].
    cbn [andb snd accepted]. apply Forall_app. split; [done |].
    apply Forall_singleton. unfold validUpdate. simpl.
    by apply (setPixel_true_valid (canvas s)).
  - rewrite step_tick. by destruct (pendingUpdates s).
Qed.

(** X17. Among draw requests with integer fields, only updates inside
    the canvas are ever broadcast: in any run of such requests and ticks
    from a state whose pending updates are in range, every draw counted
    as accepted, every update of every batch and every update left
    pending has coordinates inside the canvas and a palette index as
    colour. *)
Theorem run_updates_valid (evs : list Event) (s : Server) :
  Forall validUpdate (pendingUpdates s) →
  Forall validUpdate (accepted (run evs s).2) ∧
  Forall (Forall validUpdate) (batches (run evs s).2) ∧
  Forall validUpdate (pendingUpdates (run evs s).1).
Proof.
  intros Hpending.
  assert (Forall validUpdate (accepted (run evs s).2)) as Hacc.
  { unfold run.
    apply (fold_step_invariant (λ st, Forall validUpdate (accepted st.2)));
      [constructor |].
    intros ev st. apply step_accepted_valid. }
  split; [done |].
  destruct (run_conserved evs s) as [Hcat _].
  assert (Forall validUpdate
            (concat (batches (run evs s).2) ++ pendingUpdates (run evs s).1)) as Hall.
  { rewrite Hcat. by apply Forall_app. }
  apply Forall_app in Hall as [Hb Hp]. split; [| done].
  by apply Forall_concat.
Qed.

Lemma run_updates_valid_witness :
  Forall validUpdate
    (accepted (run [EvDraw "u"%string 5 5 3 1 1 1; EvDraw "v"%string 9 9 99 1 1 1] server0).2) ∧
  Forall (Forall validUpdate)
    (batches (run [EvDraw "u"%string 5 5 3 1 1 1; EvDraw "v"%string 9 9 99 1 1 1] server0).2) ∧
  Forall validUpdate
    (pendingUpdates (run [EvDraw "u"%string 5 5 3 1 1 1; EvDraw "v"%string 9 9 99 1 1 1]
                         server0).1).
Proof.
  apply (run_updates_valid _ server0). constructor.
Defined.

Lemma step_canvas_replay x y cell0 ev st :
  0 <= x < CANVAS_SIZE → 0 <= y < CANVAS_SIZE →
  getPixel (canvas st.1) x y = replay x y (accepted st.2) cell0 →
  getPixel (canvas (step ev st).1) x y = replay x y (accepted (step ev st).2) cell0.
Proof.
  intros Hx Hy. destruct st as [s tr].
  destruct ev as [v x' y' color now1 now2 now3|]; intros Hinv;
    cbn [fst snd] in Hinv.
  - rewrite step_draw.
    destruct (canUserDraw (userCooldowns s) v now1); [| done].
    destruct (fst (setPixel (canvas s) x' y' color)) eqn:Hset; [| done].
    cbn [andb fst snd accepted canvas].
    unfold replay. rewrite foldl_snoc. fold (replay x y (accepted tr) cell0).
    destruct (setPixel_true_valid _ _ _ _ Hset) as (Hx' & Hy' & Hk).
    unfold applyUpdate. cbn [upd_x upd_y upd_color].
    destruct (decide (x' = x ∧ y' = y)) as [[-> ->]|Hne].
    + replace ((x =? x) && (y =? y)) with true by lia.
      by apply setPixel_reads_back.
    + replace ((x' =? x) && (y' =? y)) with false by lia.
      rewrite <- Hinv. apply setPixel_frame; [done | done |].
      intros [= ? ?]. apply Hne. done.
  - rewrite step_tick. by destruct (pendingUpdates s).
Qed.

Lemma run_canvas_replay x y evs s :
  0 <= x < CANVAS_SIZE → 0 <= y < CANVAS_SIZE →
  getPixel (canvas (run evs s).1) x y
  = replay x y (accepted (run evs s).2) (getPixel (canvas s) x y).
Proof.
  intros Hx Hy. unfold run.
  apply (fold_step_invariant
           (λ st, getPixel (canvas st.1) x y
                  = replay x y (accepted st.2) (getPixel (canvas s) x y))); [done |].
  intros ev st. by apply step_canvas_replay.
Qed.

(** X18. The canvas is the accepted draws replayed in order: after any
    run of ticks and draw requests with integer fields, each cell holds
    the colour of the last accepted draw at that cell, or what it held
    at the start when no draw was accepted there. *)
Theorem run_canvas_is_replay_of_accepted (x y : Z) (evs : list Event) (s : Server) :
  0 <= x < CANVAS_SIZE → 0 <= y < CANVAS_SIZE →
  getPixel (canvas (run evs s).1) x y
  = replay x y (accepted (run evs s).2) (getPixel (canvas s) x y).
Proof. apply run_canvas_replay. Qed.

Lemma run_canvas_is_replay_of_accepted_witness :
  getPixel (canvas (run [EvDraw "u"%string 5 5 3 1 1 1; EvTick;
                         EvDraw "v"%string 5 5 7 2 2 2] server0).1) 5 5
  = replay 5 5
      (accepted (run [EvDraw "u"%string 5 5 3 1 1 1; EvTick;
                      EvDraw "v"%string 5 5 7 2 2 2] server0).2)
      (getPixel (canvas server0) 5 5).
Proof.
  apply (run_canvas_is_replay_of_accepted 5 5 _ server0); unfold CANVAS_SIZE; lia.
Defined.

(** X19. As long as draw requests carry integer fields, a client that
    applies every broadcast batch in order to its copy of the canvas
    agrees with the server after a tick: when nothing was pending at the
    start, each cell of the server's canvas is the cell's starting value
    with the updates of all batches replayed. *)
Theorem run_canvas_is_replay_of_batches (x y : Z) (evs : list Event) (s : Server) :
  0 <= x < CANVAS_SIZE → 0 <= y < CANVAS_SIZE →
  pendingUpdates s = [] →
  getPixel (canvas (run (evs ++ [EvTick]) s).1) x y
  = replay x y (concat (batches (run (evs ++ [EvTick]) s).2)) (getPixel (canvas s) x y).
Proof.
  intros Hx Hy Hempty. rewrite run_canvas_replay by done. f_equal.
  destruct (run_conserved (evs ++ [EvTick]) s) as [Hcat _].
  rewrite run_snoc in *. rewrite tick_drains, app_nil_r, Hempty in Hcat. done.
Qed.

Lemma run_canvas_is_replay_of_batches_witness :
  getPixel (canvas (run ([EvDraw "u"%string 5 5 3 1 1 1; EvTick;
                          EvDraw "v"%string 5 5 7 2 2 2] ++ [EvTick]) server0).1) 5 5
  = replay 5 5
      (concat (batches (run ([EvDraw "u"%string 5 5 3 1 1 1; EvTick;
                              EvDraw "v"%string 5 5 7 2 2 2] ++ [EvTick]) server0).2))
      (getPixel (canvas server0) 5 5).
Proof.
  apply (run_canvas_is_replay_of_batches 5 5 _ server0).
  - unfold CANVAS_SIZE. lia.
  - unfold CANVAS_SIZE. lia.
  - reflexivity.
Defined.

(** ** Further properties of the broadcast *)

(** X20. A broadcast tick delivers one and the same message, the whole
    pending queue, to exactly the clients whose socket is [OPEN]; with an
    empty queue nobody is sent anything. *)
Theorem broadcast_reaches_open_clients
    {A : Type} (clients : list (A * ReadyState)) (s : Server)
    (a : A) (message : list Update) :
  (a, message) ∈ (broadcast clients s).2
  ↔ (a, OPEN) ∈ clients ∧ pendingUpdates s ≠ [] ∧ message = pendingUpdates s.
Proof.
  unfold broadcast. rewrite broadcastTick_cases.
  destruct (pendingUpdates s) as [|u us] eqn:Hp; cbn [snd].
  - split; [by intros ?%elem_of_nil | by intros (_ & ? & _)].
  - rewrite list_elem_of_fmap. unfold recipients. split.
    + intros (a' & [= -> ->] & Ha). apply list_elem_of_omap in Ha as ([a0 st] & Hin & Hst).
      simpl in Hst. destruct st; try done. injection Hst as ->. done.
    + intros (Hin & _ & ->). exists a. split; [done |].
      apply list_elem_of_omap. by exists (a, OPEN).
Qed.

(** ** Further properties of the message handler *)

Lemma arrayFrom_length a : length (arrayFrom a) = Z.to_nat (u8_length a).
Proof. unfold arrayFrom. by rewrite length_fmap, length_seq. Qed.

Lemma arrayFrom_lookup a i v :
  u8_get a i = Some v → arrayFrom a !! Z.to_nat i = Some v.
Proof.
  intros Hget. unfold arrayFrom.
  assert (0 <= i < u8_length a) as Hi.
  { unfold u8_get in Hget. by case_decide. }
  rewrite list_lookup_fmap, lookup_seq_lt by lia. simpl.
  rewrite Z2Nat.id by lia. by rewrite Hget.
Qed.

(** X21. A region query with integer fields, non-negative width and
    height, an area within what the engine can allocate and send (at
    most 2^53 - 1) and a height of at most 2^53 is answered with one
    message that echoes the requested rectangle and carries
    [width * height] entries in row-major order, the entry for
    [(dx, dy)] being the canvas cell at [(x + dx, y + dy)] or 0 outside
    the canvas; the server state is left as it was. *)
Theorem onMessage_getRegion_reply
    (maxLength : Z) (userId : string) (x y width height now1 now2 now3 : Z)
    (s : Server) :
  0 <= width → 0 <= height →
  width * height <= maxLength → width * height <= MAX_SAFE_INTEGER →
  height <= MAX_SAFE_INTEGER + 1 →
  ∃ data,
    onMessageOn maxLength userId (MsgGetRegion x y width height) now1 now2 now3 s
    = (s, [SentRegion x y width height data], false) ∧
    length data = Z.to_nat (width * height) ∧
    ∀ dx dy, 0 <= dx < width → 0 <= dy < height →
      data !! Z.to_nat (dy * width + dx) =
      if decide (0 <= x + dx < CANVAS_SIZE ∧ 0 <= y + dy < CANVAS_SIZE)
      then getPixel (canvas s) (x + dx) (y + dy) else Some 0.
Proof.
  intros Hw Hh Hfits Hsafe Htall.
  destruct (getRegion_at maxLength (canvas s) x y width height Hw Hh Hfits Hsafe Htall)
    as (region & Hreg & Hlen & Hcells).
  exists (arrayFrom region). cbn [onMessageOn]. rewrite Hreg.
  split; [done |]. split; [by rewrite arrayFrom_length, Hlen |].
  intros dx dy Hdx Hdy. specialize (Hcells dx dy Hdx Hdy).
  unfold regionCell in Hcells.
  destruct (inCanvas (x + dx) (y + dy)) eqn:Hin.
  - apply inCanvas_spec in Hin as Hin'. rewrite decide_True by done.
    destruct (getPixel_defined (canvas s) _ _ Hin) as [v Hv].
    rewrite Hv in *. by apply arrayFrom_lookup.
  - rewrite decide_False
      by (intros Hin'; apply inCanvas_spec in Hin'; congruence).
    by apply arrayFrom_lookup.
Qed.

Lemma onMessage_getRegion_reply_witness :
  ∃ data,
    onMessageOn 4000000 "u"%string (MsgGetRegion (-1) 0 3 2) 0 0 0
                (mkServer (snd (setPixel canvas0 0 0 3)) ∅ [])
    = (mkServer (snd (setPixel canvas0 0 0 3)) ∅ [],
       [SentRegion (-1) 0 3 2 data], false) ∧
    length data = Z.to_nat (3 * 2) ∧
    data !! Z.to_nat (0 * 3 + 1) = Some 3.
Proof.
  destruct (onMessage_getRegion_reply 4000000 "u"%string (-1) 0 3 2 0 0 0
              (mkServer (snd (setPixel canvas0 0 0 3)) ∅ []))
    as (data & Hmsg & Hlen & Hcells);
    [lia | lia | lia | unfold MAX_SAFE_INTEGER; lia | unfold MAX_SAFE_INTEGER; lia |].
  exists data. split; [exact Hmsg |]. split; [exact Hlen |].
  apply (Hcells 1 0); lia.
Defined.



(** X23. Only draw requests change the server: a region query, a message
    of unknown type and an unparseable payload all leave canvas, cooldown
    records and pending updates as they were, and only a region query
    among them is answered. *)
Theorem onMessage_changes_state_only_on_draw
    (userId : string) (msg : Message) (now1 now2 now3 : Z) (s : Server) :
  (∀ x y color, msg ≠ MsgDrawPixel x y color) →
  (onMessage userId msg now1 now2 now3 s).1.1 = s ∧
  ((onMessage userId msg now1 now2 now3 s).1.2 ≠ [] →
   ∃ x y width height, msg = MsgGetRegion x y width height).
Proof.
  intros Hmsg. unfold onMessage.
  destruct msg as [x y width height|x y color| |]; cbn [onMessageOn].
  - destruct (getRegionOn MAX_SAFE_INTEGER (canvas s) x y width height);
      [split; [done | eauto] |].
    destruct (getRegionEnding MAX_SAFE_INTEGER width height); (split; [done | eauto]).
  - by destruct (Hmsg x y color).
  - done.
  - done.
Qed.

Lemma onMessage_changes_state_only_on_draw_witness :
  (onMessage "u"%string MsgUnparseable 1 2 3
             (mkServer canvas0 ∅ [mkUpdate 1 1 1])).1.1
  = mkServer canvas0 ∅ [mkUpdate 1 1 1].
Proof.
  apply (onMessage_changes_state_only_on_draw "u"%string MsgUnparseable 1 2 3).
  discriminate.
Defined.

(** ** Further properties of the HTTP handler *)

(** X24. The routing table of the HTTP handler. Every request other
    than [POST /save-snapshot] leaves the saving state as it was and is
    answered at once with exactly one response, which is:
    for [/] and [/index.html], the file as [text/html] with status 200,
    or status 500 with the text "Error loading index.html" when the file
    cannot be read; for [/styles.css], the file as [text/css] with
    status 200, or status 404 with the text "styles.css not found";
    for [/health], status 200 and the JSON health report with the number
    of connections; for every other URL ([/save-snapshot] with another
    method included), status 200 and the plain-text banner. *)
Theorem onRequest_routes
    (req : Request) (index styles : option string) (connections : Z) (sv : Saver) :
  ¬ (req_method req = "POST"%string ∧ req_url req = "/save-snapshot"%string) →
  (onRequest req index styles connections sv).1 = sv ∧
  ∃ res,
    (onRequest req index styles connections sv).2 = [res] ∧
    res =
    if decide (req_url req = "/"%string ∨ req_url req = "/index.html"%string) then
      match index with
      | Some data => mkResponse 200 (Some "text/html"%string) (FileData data)
      | None => mkResponse 500 None (Text "Error loading index.html")
      end
    else if decide (req_url req = "/styles.css"%string) then
      match styles with
      | Some data => mkResponse 200 (Some "text/css"%string) (FileData data)
      | None => mkResponse 404 None (Text "styles.css not found")
      end
    else if decide (req_url req = "/health"%string) then
      mkResponse 200 (Some "application/json"%string) (HealthJson connections)
    else
      mkResponse 200 (Some "text/plain"%string) (Text "Flappy Place Server running").
Proof.
  intros Hnot. unfold onRequest.
  destruct (String.eqb (req_url req) "/") eqn:E1.
  { apply String.eqb_eq in E1. cbn [orb]. rewrite decide_True by auto.
    destruct index; (split; [done |]); eexists; (split; done). }
  destruct (String.eqb (req_url req) "/index.html") eqn:E2.
  { apply String.eqb_eq in E2. cbn [orb]. rewrite decide_True by auto.
    destruct index; (split; [done |]); eexists; (split; done). }
  cbn [orb]. apply String.eqb_neq in E1, E2.
  rewrite decide_False by (by intros [?|?]).
  destruct (String.eqb (req_url req) "/styles.css") eqn:E3.
  { apply String.eqb_eq in E3. rewrite decide_True by done.
    destruct styles; (split; [done |]); eexists; (split; done). }
  apply String.eqb_neq in E3. rewrite decide_False by done.
  destruct (String.eqb (req_method req) "POST") eqn:E4;
    destruct (String.eqb (req_url req) "/save-snapshot") eqn:E5; cbn [andb].
  { apply String.eqb_eq in E4, E5. by destruct Hnot. }
  all: destruct (String.eqb (req_url req) "/health") eqn:E6;
    [apply String.eqb_eq in E6; rewrite decide_True by done
    |apply String.eqb_neq in E6; rewrite decide_False by done];
    (split; [done |]); eexists; (split; done).
Qed.

Lemma onRequest_routes_witness :
  (onRequest (mkRequest "GET" "/save-snapshot") None None 0 saver0).1 = saver0 ∧
  ∃ res,
    (onRequest (mkRequest "GET" "/save-snapshot") None None 0 saver0).2 = [res] ∧
    res = mkResponse 200 (Some "text/plain"%string) (Text "Flappy Place Server running").
Proof.
  apply (onRequest_routes (mkRequest "GET" "/save-snapshot") None None 0 saver0).
  simpl. intros [Hm _]. discriminate.
Defined.

(** ** Further properties of saving and shutdown *)

Lemma shuttingDown_step ev s : shuttingDown s → shuttingDown (saveStep ev s).
Proof.
  intros (Hs & Hm & Hsh). unfold saveStep.
  destruct (exited s) eqn:Hex.
  { unfold shuttingDown. rewrite Hex. auto. }
  destruct Hsh as [Hsh|Hsh]; [done |].
  destruct ev as [| |[|] ok]; simpl.
  - unfold onSaveSnapshot. rewrite Hs. repeat split; simpl; auto.
  - unfold saveAndExit. rewrite Hs. repeat split; auto.
  - rewrite Hm. repeat split; auto.
  - rewrite Hsh. repeat split; simpl; auto.
Qed.

Lemma shuttingDown_settles s ok :
  shuttingDown s → exited (saveStep (Settled Shutdown ok) s) = true.
Proof.
  intros (_ & _ & Hsh). unfold saveStep.
  destruct (exited s) eqn:Hex; [done |].
  destruct Hsh as [Hsh|Hsh]; [done |]. simpl. by rewrite Hsh.
Qed.

Lemma saveAndExit_starts s :
  _isSaving s = false → (manualPending s + shutdownPending s = 0)%nat →
  shuttingDown (saveAndExit s).
Proof.
  intros Hidle Hcount. unfold saveAndExit. rewrite Hidle.
  repeat split; simpl; [lia | right; lia].
Qed.

Lemma shuttingDown_run evs s : shuttingDown s → shuttingDown (saveRun evs s).
Proof.
  unfold saveRun. revert s.
  induction evs as [|ev evs IH]; intros s Hs; simpl; [done |].
  apply IH. by apply shuttingDown_step.
Qed.

Lemma saveRun_app evs1 evs2 s :
  saveRun (evs1 ++ evs2) s = saveRun evs2 (saveRun evs1 s).
Proof. unfold saveRun. by rewrite fold_left_app. Qed.

Lemma saveRun_exited evs s : exited s = true → saveRun evs s = s.
Proof.
  unfold saveRun. induction evs as [|ev evs IH]; intros Hex; simpl; [done |].
  unfold saveStep at 2. rewrite Hex. by apply IH.
Qed.

(** X25. A termination signal that finds no save in flight always ends
    the process: whatever requests, signals and settling exports come in
    between, the process has exited once the shutdown save settles,
    whether it succeeded or failed; until then no manual save starts, and
    after the exit nothing changes any more. *)
Theorem signal_when_idle_exits (s : Saver) (evs evs' : list SaveEvent) (ok : bool) :
  exited s = false → _isSaving s = false → exclusive s →
  exited (saveRun (Signal :: evs ++ [Settled Shutdown ok]) s) = true ∧
  manualPending (saveRun (Signal :: evs) s) = 0%nat ∧
  saveRun evs' (saveRun (Signal :: evs ++ [Settled Shutdown ok]) s)
  = saveRun (Signal :: evs ++ [Settled Shutdown ok]) s.
Proof.
  intros Hex Hidle [_ Hcount]. specialize (Hcount Hidle).
  assert (shuttingDown (saveRun (Signal :: evs) s)) as Hsd.
  { change (saveRun (Signal :: evs) s) with (saveRun evs (saveStep Signal s)).
    apply shuttingDown_run. unfold saveStep. rewrite Hex.
    by apply saveAndExit_starts. }
  assert (exited (saveRun (Signal :: evs ++ [Settled Shutdown ok]) s) = true) as Hend.
  { change (Signal :: evs ++ [Settled Shutdown ok])
      with ((Signal :: evs) ++ [Settled Shutdown ok]).
    rewrite saveRun_app.
    change (saveRun [Settled Shutdown ok] (saveRun (Signal :: evs) s))
      with (saveStep (Settled Shutdown ok) (saveRun (Signal :: evs) s)).
    by apply shuttingDown_settles. }
  split; [done |]. split; [by destruct Hsd as (_ & Hm & _) |].
  by apply saveRun_exited.
Qed.

Lemma signal_when_idle_exits_witness :
  exited (saveRun (Signal :: [PostSaveSnapshot; Signal; Settled Manual true]
                           ++ [Settled Shutdown false]) saver0) = true ∧
  manualPending (saveRun (Signal :: [PostSaveSnapshot; Signal; Settled Manual true])
                         saver0) = 0%nat ∧
  saveRun [PostSaveSnapshot]
          (saveRun (Signal :: [PostSaveSnapshot; Signal; Settled Manual true]
                           ++ [Settled Shutdown false]) saver0)
  = saveRun (Signal :: [PostSaveSnapshot; Signal; Settled Manual true]
                    ++ [Settled Shutdown false]) saver0.
Proof.
  apply (signal_when_idle_exits saver0 [PostSaveSnapshot; Signal; Settled Manual true]
           [PostSaveSnapshot] false).
  - reflexivity.
  - reflexivity.
  - split; simpl; [lia | reflexivity].
Defined.

Lemma no_signal_step ev s :
  ev ≠ Signal → exited s = false ∧ shutdownPending s = 0%nat →
  exited (saveStep ev s) = false ∧ shutdownPending (saveStep ev s) = 0%nat.
Proof.
  intros Hev [Hex Hsh]. unfold saveStep. rewrite Hex.
  destruct ev as [| |[|] ok]; simpl.
  - unfold onSaveSnapshot. by destruct (_isSaving s).
  - done.
  - by destruct (manualPending s).
  - by rewrite Hsh.
Qed.

(** X26. Only the shutdown path ends the process: as long as no
    termination signal (or uncaught exception) arrives, no sequence of
    save requests and settling exports makes the process exit or starts
    a shutdown save. *)
Theorem no_signal_no_exit (evs : list SaveEvent) (s : Saver) :
  exited s = false → shutdownPending s = 0%nat →
  Forall (λ ev, ev ≠ Signal) evs →
  exited (saveRun evs s) = false ∧ shutdownPending (saveRun evs s) = 0%nat.
Proof.
  intros Hex Hsh Hevs. unfold saveRun. revert s Hex Hsh.
  induction Hevs as [|ev evs Hev _ IH]; intros s Hex Hsh; simpl; [done |].
  destruct (no_signal_step ev s Hev (conj Hex Hsh)) as [Hex' Hsh'].
  by apply IH.
Qed.

Lemma no_signal_no_exit_witness :
  exited (saveRun [PostSaveSnapshot; PostSaveSnapshot; Settled Manual false;
                   Settled Shutdown true] saver0) = false ∧
  shutdownPending (saveRun [PostSaveSnapshot; PostSaveSnapshot; Settled Manual false;
                            Settled Shutdown true] saver0) = 0%nat.
Proof.
  apply (no_signal_no_exit _ saver0).
  - reflexivity.
  - reflexivity.
  - repeat constructor; discriminate.
Defined.

(** X27. A manual save releases the flag whether it succeeds or fails:
    from an idle state, once the export started by [POST /save-snapshot]
    settles, exactly one response is written, 200 on success and 500 on
    failure, [_isSaving] is false again, and the next save request is
    accepted instead of being answered 409. *)
Theorem manual_save_releases_flag (s : Saver) (ok : bool) :
  exited s = false → _isSaving s = false → exclusive s →
  responses (saveRun [PostSaveSnapshot; Settled Manual ok] s)
    = responses s ++ [if ok then 200 else 500] ∧
  _isSaving (saveRun [PostSaveSnapshot; Settled Manual ok] s) = false ∧
  manualPending (saveRun [PostSaveSnapshot; Settled Manual ok] s) = 0%nat ∧
  manualPending (saveRun [PostSaveSnapshot; Settled Manual ok; PostSaveSnapshot] s)
    = 1%nat ∧
  responses (saveRun [PostSaveSnapshot; Settled Manual ok; PostSaveSnapshot] s)
    = responses s ++ [if ok then 200 else 500].
Proof.
  intros Hex Hidle [_ Hcount]. specialize (Hcount Hidle).
  destruct s as [saving manual shutdown ex written]. simpl in *. subst.
  assert (manual = 0%nat) as -> by lia.
  repeat split; reflexivity.
Qed.

Lemma manual_save_releases_flag_witness :
  responses (saveRun [PostSaveSnapshot; Settled Manual false] saver0)
    = responses saver0 ++ [500] ∧
  _isSaving (saveRun [PostSaveSnapshot; Settled Manual false] saver0) = false ∧
  manualPending (saveRun [PostSaveSnapshot; Settled Manual false] saver0) = 0%nat ∧
  manualPending (saveRun [PostSaveSnapshot; Settled Manual false; PostSaveSnapshot] saver0)
    = 1%nat ∧
  responses (saveRun [PostSaveSnapshot; Settled Manual false; PostSaveSnapshot] saver0)
    = responses saver0 ++ [500].
Proof.
  apply (manual_save_releases_flag saver0 false).
  - reflexivity.
  - reflexivity.
  - split; simpl; [lia | reflexivity].
Defined.
